(** * mcp-openapi-server: authentication providers, request context and
      request-body selection

    The development embeds
    - [src/auth-provider.ts]: [isAuthError], [StaticAuthProvider] and
      [RedmineAuthProvider];
    - [src/utils/request-context.ts]: [runWithRequestContext] and
      [getRequestContext], over a model of Node's [AsyncLocalStorage];
    - the Request Body Selector of the design document (section 4.3).

    JavaScript strings are [string]s, one character per code unit; a
    [Record<string, string>] is a [gmap string string] living in an object
    heap, so that object identity (aliasing, fresh copies) can be stated. *)

From Stdlib Require Import ZArith String Ascii List Lia.
From stdpp Require Import base option gmap strings list fin_maps.

Local Open Scope string_scope.

(** ** JavaScript values used by the providers *)

(** The line feed of the ["\n"] escapes in the error messages. *)
Definition nl : string := String (ascii_of_nat 10) EmptyString.

(** Truthiness of a [string | null | undefined] value: [null], [undefined]
    and the empty string are falsy. *)
Definition truthy (v : option string) : bool :=
  match v with
  | Some s => negb (String.eqb s "")
  | None => false
  end.

(** [s.substring(start, end)] on natural indices: both indices are clamped to
    the length and swapped when [start > end]. *)
Definition js_substring (s : string) (start end_ : nat) : string :=
  let len := String.length s in
  let a := Nat.min start len in
  let b := Nat.min end_ len in
  String.substring (Nat.min a b) (Nat.max a b - Nat.min a b) s.

(** [new Error(message)]. *)
Record Error : Type := mkError { message : string }.

(** How a call completes.  For an [async] method [Returned v] is the promise
    resolved with [v] and [Thrown e] the promise rejected with [e]. *)
Inductive Completion (A : Type) : Type :=
| Returned (a : A)
| Thrown (e : Error).
Arguments Returned {A} a.
Arguments Thrown {A} e.

(** ** The object heap *)

(** References to [Record<string, string>] objects. *)
Abbreviation loc := positive (only parsing).
Abbreviation HeaderRecord := (gmap string string) (only parsing).
Abbreviation Heap := (gmap positive (gmap string string)) (only parsing).

(** A method body runs against its receiver [this : S] and the heap; it may
    update both, and completes normally or by throwing. *)
Definition Method (S A : Type) : Type :=
  S -> Heap -> Completion A * S * Heap.

Definition ret {S A} (a : A) : Method S A :=
  fun this h => (Returned a, this, h).

Definition throw {S A} (e : Error) : Method S A :=
  fun this h => (Thrown e, this, h).

Definition bind {S A B} (m : Method S A) (k : A -> Method S B) : Method S B :=
  fun this h =>
    match m this h with
    | (Returned a, this', h') => k a this' h'
    | (Thrown e, this', h') => (Thrown e, this', h')
    end.

Notation "'let!' x ':=' m 'in' k" := (bind m (fun x => k))
  (at level 10, x name, m at level 100, k at level 200).

(** Read a field of [this]. *)
Definition field {S A} (f : S -> A) : Method S A :=
  fun this h => (Returned (f this), this, h).

(** Assign to [this]. *)
Definition assign {S} (f : S -> S) : Method S unit :=
  fun this h => (Returned tt, f this, h).

(** An object literal: a new object at a reference the heap does not use. *)
Definition alloc {S} (o : HeaderRecord) : Method S loc :=
  fun this h => let l := fresh (dom h) in (Returned l, this, <[l := o]> h).

(** The own properties of the object at [l], as [{ ...l }] enumerates them. *)
Definition properties {S} (l : loc) : Method S HeaderRecord :=
  fun this h => (Returned (default ∅ (h !! l)), this, h).

(** [l[key] = value]. *)
Definition setProperty {S} (l : loc) (key value : string) : Method S unit :=
  fun this h => (Returned tt, this, alter (insert key value) l h).

(** ** Axios errors *)

Record AxiosResponse : Type := mkResponse { status : Z }.

Record AxiosError : Type := mkAxiosError { response : option AxiosResponse }.

(** [error.response?.status]. *)
Definition response_status (error : AxiosError) : option Z :=
  status <$> response error.

(** [v === n] for a [number | undefined] value [v]. *)
Definition strict_eq (v : option Z) (n : Z) : bool :=
  match v with
  | Some m => (m =? n)%Z
  | None => false
  end.

Definition isAuthError (error : AxiosError) : bool :=
  strict_eq (response_status error) 401 || strict_eq (response_status error) 403.

(** ** The [AuthProvider] interface *)

Class AuthProvider (S : Type) : Type := {
  getAuthHeaders : Method S loc;
  handleAuthError : AxiosError -> Method S bool
}.

(** ** [StaticAuthProvider] *)

Module StaticAuthProvider.

Record t : Type := mk { headers : loc }.

(** [constructor(private headers: Record<string, string> = {})]: the
    argument is stored by reference; the default is a new empty object. *)
Definition constructor (arg : option loc) (h : Heap) : t * Heap :=
  match arg with
  | Some l => (mk l, h)
  | None => let l := fresh (dom h) in (mk l, <[l := ∅]> h)
  end.

Definition getAuthHeaders : Method t loc :=
  let! l := field headers in
  let! o := properties l in
  alloc o.

Definition handleAuthError (_error : AxiosError) : Method t bool :=
  ret false.

End StaticAuthProvider.

#[export] Instance StaticAuthProvider_provider : AuthProvider StaticAuthProvider.t := {
  getAuthHeaders := StaticAuthProvider.getAuthHeaders;
  handleAuthError := StaticAuthProvider.handleAuthError
}.

(** ** [RedmineAuthProvider] *)

Module RedmineAuthProvider.

Record t : Type := mk { apiKey : option string; switchUser : option string }.

Record AuthStatus : Type := mkStatus {
  hasApiKey : bool;
  apiKeyPreview : option string;
  status_switchUser : option string
}.

Definition msg_not_set : string :=
  "Redmine API key not set. Please set your API key using setApiKey() method." +:+ nl +:+ nl +:+
  "To get your API key:" +:+ nl +:+
  "1. Go to your Redmine profile page" +:+ nl +:+
  "2. Click on 'API access key'" +:+ nl +:+
  "3. Copy the generated key" +:+ nl +:+
  "4. Use setApiKey() to configure it".

Definition msg_401 : string :=
  "Redmine authentication failed (401 Unauthorized). Please check:" +:+ nl +:+ nl +:+
  "1. Your API key is valid and not expired" +:+ nl +:+
  "2. REST API is enabled in Redmine (Administration → Settings → API → Enable REST API)" +:+ nl +:+
  "3. Your user account has API access enabled" +:+ nl +:+
  "4. The API key belongs to an active user account".

Definition msg_403 : string :=
  "Redmine access denied (403 Forbidden). Please check:" +:+ nl +:+ nl +:+
  "1. Your user account has permission to access the requested resource" +:+ nl +:+
  "2. If using user impersonation, your API key belongs to an admin user" +:+ nl +:+
  "3. The REST API is properly configured in Redmine" +:+ nl +:+
  "4. Your user account is not locked or disabled".

Definition setApiKey (k : string) : Method t unit :=
  assign (fun this => mk (Some k) (switchUser this)).

Definition setSwitchUser (username : string) : Method t unit :=
  assign (fun this => mk (apiKey this) (Some username)).

Definition clearAuth : Method t unit :=
  let! _ := assign (fun this => mk None (switchUser this)) in
  assign (fun this => mk (apiKey this) None).

(** The field initialisers [apiKey = null] and [switchUser = null]. *)
Definition initial : t := mk None None.

(** [if (v) { body(v) }] for an optional string [v]. *)
Definition whenTruthy (v : option string) (body : string -> Method t unit)
  : Method t unit :=
  match v with
  | Some s => if truthy v then body s else ret tt
  | None => ret tt
  end.

(** [constructor(apiKey?: string, switchUser?: string)]. *)
Definition constructor_body (k u : option string) : Method t unit :=
  let! _ := whenTruthy k setApiKey in
  whenTruthy u setSwitchUser.

Definition constructor (k u : option string) (h : Heap) : t * Heap :=
  match constructor_body k u initial h with
  | (_, this, h') => (this, h')
  end.

Definition getAuthHeaders : Method t loc :=
  let! k := field apiKey in
  match k with
  | Some key =>
      if truthy k then
        let! headers := alloc {[ "X-Redmine-API-Key" := key;
                                 "Accept" := "application/json";
                                 "Content-Type" := "application/json" ]} in
        let! u := field switchUser in
        let! _ := whenTruthy u (setProperty headers "X-Redmine-Switch-User") in
        ret headers
      else throw (mkError msg_not_set)
  | None => throw (mkError msg_not_set)
  end.

Definition handleAuthError (error : AxiosError) : Method t bool :=
  let statusCode := response_status error in
  if strict_eq statusCode 401 then throw (mkError msg_401)
  else if strict_eq statusCode 403 then throw (mkError msg_403)
  else ret false.

Definition getAuthStatus : Method t AuthStatus :=
  let! k := field apiKey in
  let! u := field switchUser in
  ret (mkStatus (truthy k)
                (match k with
                 | Some key =>
                     if truthy k then Some (js_substring key 0 8 +:+ "...")
                     else None
                 | None => None
                 end)
                u).

(** The public methods, as calls on a provider. *)
Inductive Call : Type :=
| SetApiKey (k : string)
| SetSwitchUser (username : string)
| GetAuthHeaders
| HandleAuthError (error : AxiosError)
| GetAuthStatus
| ClearAuth.

(** The provider and the heap once a method call has completed, normally
    or not. *)
Definition after {A} (m : Method t A) (this : t) (h : Heap) : t * Heap :=
  match m this h with
  | (_, this', h') => (this', h')
  end.

Definition perform (c : Call) (this : t) (h : Heap) : t * Heap :=
  match c with
  | SetApiKey k => after (setApiKey k) this h
  | SetSwitchUser u => after (setSwitchUser u) this h
  | GetAuthHeaders => after getAuthHeaders this h
  | HandleAuthError e => after (handleAuthError e) this h
  | GetAuthStatus => after getAuthStatus this h
  | ClearAuth => after clearAuth this h
  end.

Fixpoint history (cs : list Call) (this : t) (h : Heap) : t * Heap :=
  match cs with
  | [] => (this, h)
  | c :: cs' => let '(this', h') := perform c this h in history cs' this' h'
  end.

(** A call that is one of the three setters. *)
Definition is_setter (c : Call) : bool :=
  match c with
  | SetApiKey _ | SetSwitchUser _ | ClearAuth => true
  | GetAuthHeaders | HandleAuthError _ | GetAuthStatus => false
  end.

(** Whether, along a history of calls, an API key has been set and
    [clearAuth] has not been called since; [given] tells whether the
    constructor received one. *)
Fixpoint keySet (given : bool) (cs : list Call) : bool :=
  match cs with
  | [] => given
  | SetApiKey _ :: cs' => keySet true cs'
  | ClearAuth :: cs' => keySet false cs'
  | _ :: cs' => keySet given cs'
  end.

(** The mapping the headers of a provider with key [k] and impersonated
    user [u] are compared with. *)
Definition expectedHeaders (k : string) (u : option string) : HeaderRecord :=
  let base : HeaderRecord := {[ "X-Redmine-API-Key" := k;
                                "Accept" := "application/json";
                                "Content-Type" := "application/json" ]} in
  match u with
  | Some user => <["X-Redmine-Switch-User" := user]> base
  | None => base
  end.

(** The impersonated user whose header is sent: the stored one when it is
    truthy. *)
Definition effectiveUser (this : t) : option string :=
  if truthy (switchUser this) then switchUser this else None.

End RedmineAuthProvider.

#[export] Instance RedmineAuthProvider_provider : AuthProvider RedmineAuthProvider.t := {
  getAuthHeaders := RedmineAuthProvider.getAuthHeaders;
  handleAuthError := RedmineAuthProvider.handleAuthError
}.

(** ** The Invocation Router's reaction to an authentication failure *)

Inductive AuthFailureAction : Type :=
| RetryOnce
| SurfaceOriginal
| SurfaceProviderError (e : Error).

(** Modelled from the spec: the Invocation Router is not among the sources;
    section 4.5, step 7 and section 6 describe its reaction to a failed
    request.  When the response indicates an authentication failure the
    retry decision is the provider's [handleAuthError]: [true] re-issues the
    request once, [false] surfaces the original error, and an error raised
    by the provider is surfaced verbatim.  Any other failure is surfaced
    unchanged. *)
Definition onRequestFailure {S} `{AuthProvider S}
    (error : AxiosError) (this : S) (h : Heap) : AuthFailureAction :=
  if isAuthError error then
    match handleAuthError error this h with
    | (Returned true, _, _) => RetryOnce
    | (Returned false, _, _) => SurfaceOriginal
    | (Thrown e, _, _) => SurfaceProviderError e
    end
  else SurfaceOriginal.

(** ** Node's [AsyncLocalStorage]

    [AsyncLocalStorage] belongs to Node's [async_hooks], not to the
    repository.  The model follows its documented behaviour: the running
    code has a current store; [run(store, callback)] installs [store] for
    the synchronous extent of [callback] and puts the previous one back when
    [callback] returns or throws; [getStore()] reads the current store,
    which is [undefined] at top level; an asynchronous operation created
    while a store is current runs later, from the event loop, with that
    store current again. *)

Module AsyncLocalStorage.
Section Storage.

(** The type of stores, the [T] of [AsyncLocalStorage<T>]. *)
Variable T : Type.

(** Code that uses one storage instance: it returns, throws, reads the
    store, runs a callback inside [run], or creates an asynchronous
    operation ([await], [then], a timer) whose job the event loop runs
    later. *)
Inductive Code (A : Type) : Type :=
| Return (a : A)
| Raise (e : Error)
| GetStore (k : option T -> Code A)
| Run (B : Type) (store : T) (callback : Code B) (k : B -> Code A)
| Defer (B : Type) (job : Code B) (k : Code A).

(** A job waiting in the event loop: the asynchronous call chain it
    belongs to (the inbound request that caused it), the store that was
    current when it was created, and its code. *)
Record Job : Type := mkJob {
  chain : nat;
  captured : option T;
  result : Type;
  body : Code result
}.

(** One answer of [getStore()], with the chain of the caller. *)
Record Observation : Type := mkObservation {
  by_chain : nat;
  seen : option T
}.

Record State : Type := mkState {
  current : option T;
  queue : list Job;
  trace : list Observation
}.

Definition set_current (s : option T) (st : State) : State :=
  mkState s (queue st) (trace st).

Definition observe (ch : nat) (st : State) : State :=
  mkState (current st) (queue st) (trace st ++ [mkObservation ch (current st)]).

Definition enqueue (ch : nat) {B} (job : Code B) (st : State) : State :=
  mkState (current st) (queue st ++ [mkJob ch (current st) B job]) (trace st).

(** Synchronous execution of code on behalf of chain [ch]. *)
Fixpoint exec {A} (p : Code A) (ch : nat) (st : State) : Completion A * State :=
  match p with
  | Return _ a => (Returned a, st)
  | Raise _ e => (Thrown e, st)
  | GetStore _ k => exec (k (current st)) ch (observe ch st)
  | Run _ B store callback k =>
      let saved := current st in
      match exec callback ch (set_current (Some store) st) with
      | (Returned b, st') => exec (k b) ch (set_current saved st')
      | (Thrown e, st') => (Thrown e, set_current saved st')
      end
  | Defer _ B job k => exec k ch (enqueue ch job st)
  end.

(** The event loop takes the [n]-th waiting job, if there is one, and runs
    it to completion with its captured store current. *)
Definition turn (n : nat) (st : State) : State :=
  match queue st !! n with
  | Some j =>
      snd (exec (body j) (chain j)
                (mkState (captured j) (delete n (queue st)) (trace st)))
  | None => st
  end.

(** The event loop under a schedule: which waiting job each turn takes. *)
Fixpoint loop (sched : list nat) (st : State) : State :=
  match sched with
  | [] => st
  | n :: sched' => loop sched' (turn n st)
  end.

(** The process serving inbound requests: each request is the first job of
    its own chain, created at top level, where no store is current. *)
Definition inbound {B} (ch : nat) (handler : Code B) : Job :=
  mkJob ch None B handler.

Definition serve (requests : list Job) (sched : list nat) : State :=
  loop sched (mkState None requests []).

(** Sequencing, [p] then [k]. *)
Fixpoint andThen {A B} (p : Code A) (k : A -> Code B) : Code B :=
  match p with
  | Return _ a => k a
  | Raise _ e => Raise B e
  | GetStore _ k' => GetStore B (fun s => andThen (k' s) k)
  | Run _ C store callback k' => Run B C store callback (fun c => andThen (k' c) k)
  | Defer _ C job k' => Defer B C job (andThen k' k)
  end.

(** Lexical scoping: [scoped X cur p] says that every [getStore()] of [p],
    read with [cur] as the store of the code around [p] and the store of
    the innermost enclosing [run] inside one, is answered within [X]. *)
Fixpoint scoped (X : option T -> Prop) (cur : option T) {A} (p : Code A) : Prop :=
  match p with
  | Return _ _ => True
  | Raise _ _ => True
  | GetStore _ k => X cur /\ scoped X cur (k cur)
  | Run _ B store callback k =>
      scoped X (Some store) callback /\ forall b, scoped X cur (k b)
  | Defer _ B job k => scoped X cur job /\ scoped X cur k
  end.

(** [opens P p]: every store [p] passes to [run] satisfies [P]. *)
Fixpoint opens (P : T -> Prop) {A} (p : Code A) : Prop :=
  match p with
  | Return _ _ => True
  | Raise _ _ => True
  | GetStore _ k => forall s, opens P (k s)
  | Run _ B store callback k =>
      P store /\ opens P callback /\ forall b, opens P (k b)
  | Defer _ B job k => opens P job /\ opens P k
  end.

(** Code that never calls [run]. *)
Definition scope_free {A} (p : Code A) : Prop := opens (fun _ => False) p.

(** The stores each chain may be answered with: a waiting job is within
    [X] when its code is, read with its captured store; a state is within
    [X] when its waiting jobs and its past observations are. *)
Definition job_within (X : nat -> option T -> Prop) (j : Job) : Prop :=
  scoped (X (chain j)) (captured j) (body j).

Definition observation_within (X : nat -> option T -> Prop) (o : Observation) : Prop :=
  X (by_chain o) (seen o).

Definition state_within (X : nat -> option T -> Prop) (st : State) : Prop :=
  Forall (job_within X) (queue st) /\ Forall (observation_within X) (trace st).

End Storage.

Arguments Return {T A} a.
Arguments Raise {T A} e.
Arguments GetStore {T A} k.
Arguments Run {T A B} store callback k.
Arguments Defer {T A B} job k.
Arguments mkJob {T} chain captured result body.
Arguments chain {T} _.
Arguments captured {T} _.
Arguments result {T} _.
Arguments body {T} _.
Arguments mkObservation {T} by_chain seen.
Arguments by_chain {T} _.
Arguments seen {T} _.
Arguments mkState {T} current queue trace.
Arguments current {T} _.
Arguments queue {T} _.
Arguments trace {T} _.
Arguments set_current {T} s st.
Arguments observe {T} ch st.
Arguments enqueue {T} ch {B} job st.
Arguments exec {T A} p ch st.
Arguments turn {T} n st.
Arguments loop {T} sched st.
Arguments inbound {T B} ch handler.
Arguments serve {T} requests sched.
Arguments andThen {T A B} p k.
Arguments scoped {T} X cur {A} p.
Arguments opens {T} P {A} p.
Arguments scope_free {T A} p.
Arguments job_within {T} X j.
Arguments observation_within {T} X o.
Arguments state_within {T} X st.

End AsyncLocalStorage.

(** ** [src/utils/request-context.ts] *)

Inductive HeaderValue : Type :=
| HeaderString (s : string)
| HeaderStrings (l : list string)
| HeaderUndefined.

Record RequestContextValue : Type := mkContext {
  ctx_headers : option (gmap string HeaderValue);
  sessionId : option string
}.

(** Code that uses the module's [storage]. *)
Abbreviation Handler := (AsyncLocalStorage.Code RequestContextValue) (only parsing).

(** [storage.run(context, callback)] on the module's private [storage]. *)
Definition runWithRequestContext {A} (context : RequestContextValue)
    (callback : Handler A) : Handler A :=
  AsyncLocalStorage.Run context callback AsyncLocalStorage.Return.

(** [storage.getStore()]. *)
Definition getRequestContext : Handler (option RequestContextValue) :=
  AsyncLocalStorage.GetStore AsyncLocalStorage.Return.

(** Two contexts and some handlers, for the examples. *)
Definition ctx_a : RequestContextValue := mkContext None (Some "session-a").
Definition ctx_b : RequestContextValue := mkContext None (Some "session-b").

(** [() => runWithRequestContext(ctx_b, getRequestContext)]. *)
Definition nested_handler : Handler (option RequestContextValue) :=
  runWithRequestContext ctx_b getRequestContext.

(** A handler that reads the context, awaits, and reads it again in the
    continuation. *)
Definition awaiting_handler : Handler (option RequestContextValue) :=
  AsyncLocalStorage.GetStore (fun _ =>
    AsyncLocalStorage.Defer getRequestContext (AsyncLocalStorage.Return None)).

(** ** The Request Body Selector *)

Module RequestBodySelector.

#[local] Set Warnings "-register-all".

Inductive SchemaFragment : Type :=
| Fragment (type format : option string)
           (enum : option (list string))
           (example : option string)
           (properties : list (string * SchemaFragment))
           (items : option SchemaFragment).

Record ContentType : Type := mkContentType {
  mediaType : string;
  schema : SchemaFragment;
  perFieldEncoding : list (string * string)
}.

Record RequestBodySpec : Type := mkRequestBody {
  contentTypes : list ContentType
}.

Definition is_json (ct : ContentType) : bool :=
  String.eqb (mediaType ct) "application/json".

(** Modelled from the spec: the Request Body Selector is not among the
    sources.  Section 4.3: [selectBody(requestBodySpec) ->
    (selectedMediaType, SchemaFragment) | none], with the selection order
    "prefer application/json if present; else the first declared media
    type in document order". *)
Definition selectBody (rb : RequestBodySpec) : option (string * SchemaFragment) :=
  match find is_json (contentTypes rb) with
  | Some ct => Some (mediaType ct, schema ct)
  | None =>
      match contentTypes rb with
      | ct :: _ => Some (mediaType ct, schema ct)
      | [] => None
      end
  end.

End RequestBodySelector.

(** ** Vocabulary of the statements *)

(** [s] contains [needle]. *)
Definition contains (needle s : string) : Prop :=
  exists pre post, s = pre +:+ needle +:+ post.

(** The first [n] characters of [s], all of [s] when it is shorter. *)
Fixpoint first_chars (n : nat) (s : string) : string :=
  match n, s with
  | S n', String c s' => String c (first_chars n' s')
  | _, _ => EmptyString
  end.

(** Two strings agree on their first [n] characters. *)
Definition agree_upto (n : nat) (s1 s2 : string) : Prop :=
  forall i, i < n -> String.get i s1 = String.get i s2.

(** The completion, the receiver and the heap a method call ends with. *)
Definition completion {S A} (r : Completion A * S * Heap) : Completion A := r.1.1.
Definition receiver {S A} (r : Completion A * S * Heap) : S := r.1.2.
Definition heap {S A} (r : Completion A * S * Heap) : Heap := r.2.

(** A call that throws. *)
Definition throws {A} (c : Completion A) : Prop :=
  exists e, c = Thrown e.

(** ** Further vocabulary *)

(** The error a call ends with, when it throws. *)
Definition thrown {S A} (r : Completion A * S * Heap) : option Error :=
  match completion r with
  | Thrown e => Some e
  | Returned _ => None
  end.

(** The error a method call on a [RedmineAuthProvider] throws, if any. *)
Definition thrownBy (c : RedmineAuthProvider.Call)
    (this : RedmineAuthProvider.t) (h : Heap) : option Error :=
  match c with
  | RedmineAuthProvider.SetApiKey k => thrown (RedmineAuthProvider.setApiKey k this h)
  | RedmineAuthProvider.SetSwitchUser u => thrown (RedmineAuthProvider.setSwitchUser u this h)
  | RedmineAuthProvider.GetAuthHeaders => thrown (RedmineAuthProvider.getAuthHeaders this h)
  | RedmineAuthProvider.HandleAuthError e => thrown (RedmineAuthProvider.handleAuthError e this h)
  | RedmineAuthProvider.GetAuthStatus => thrown (RedmineAuthProvider.getAuthStatus this h)
  | RedmineAuthProvider.ClearAuth => thrown (RedmineAuthProvider.clearAuth this h)
  end.

(** A call that assigns the [apiKey] field. *)
Definition touchesKey (c : RedmineAuthProvider.Call) : bool :=
  match c with
  | RedmineAuthProvider.SetApiKey _ | RedmineAuthProvider.ClearAuth => true
  | _ => false
  end.

(** An inbound request: its context and its handler. *)
Record Request : Type := mkRequest {
  req_context : RequestContextValue;
  req_result : Type;
  req_handler : Handler req_result
}.

(** The first job of the chain of request [r]: its handler, run inside
    [runWithRequestContext] on the context of the request. *)
Definition handle (ch : nat) (r : Request) : AsyncLocalStorage.Job RequestContextValue :=
  AsyncLocalStorage.inbound ch (runWithRequestContext (req_context r) (req_handler r)).

(** ** The scopes a run opens *)

Section ScopesOpened.

Import AsyncLocalStorage.

Variable T : Type.

(** [exec], keeping besides the state a log of the [run] calls made: the
    chain that made the call and the store it opened the scope on. *)
Fixpoint exec_log {A} (p : AsyncLocalStorage.Code T A) (ch : nat) (st : State T)
    (log : list (nat * T)) : Completion A * State T * list (nat * T) :=
  match p with
  | Return a => (Returned a, st, log)
  | Raise e => (Thrown e, st, log)
  | GetStore k => exec_log (k (current st)) ch (observe ch st) log
  | Run store callback k =>
      let saved := current st in
      match exec_log callback ch (set_current (Some store) st) (log ++ [(ch, store)]) with
      | (Returned b, st', log') => exec_log (k b) ch (set_current saved st') log'
      | (Thrown e, st', log') => (Thrown e, set_current saved st', log')
      end
  | Defer job k => exec_log k ch (enqueue ch job st) log
  end.

(** [turn] and [loop], with the log. *)
Definition turn_log (n : nat) (s : State T * list (nat * T)) : State T * list (nat * T) :=
  match queue s.1 !! n with
  | Some j =>
      let r := exec_log (body j) (chain j)
                 (mkState (captured j) (delete n (queue s.1)) (trace s.1)) s.2 in
      (r.1.2, r.2)
  | None => s
  end.

Fixpoint loop_log (sched : list nat) (s : State T * list (nat * T))
    : State T * list (nat * T) :=
  match sched with
  | [] => s
  | n :: sched' => loop_log sched' (turn_log n s)
  end.

(** The [run] calls made while [serve requests sched] runs: which chain
    opened a scope, and on which store. *)
Definition scopes_opened (requests : list (Job T)) (sched : list nat) : list (nat * T) :=
  (loop_log sched (mkState None requests [], [])).2.

(** An observation, and the store a waiting job captured, that the log
    accounts for: the same chain opened a scope on that store. *)
Definition observed_opened (log : list (nat * T)) (o : Observation T) : Prop :=
  forall s, seen o = Some s -> (by_chain o, s) ∈ log.

Definition captured_opened (log : list (nat * T)) (j : Job T) : Prop :=
  forall s, captured j = Some s -> (chain j, s) ∈ log.

End ScopesOpened.

Arguments exec_log {T A} p ch st log.
Arguments turn_log {T} n s.
Arguments loop_log {T} sched s.
Arguments scopes_opened {T} requests sched.
Arguments observed_opened {T} log o.
Arguments captured_opened {T} log j.

(** A handler that reads the context and opens a scope on what it read. *)
Definition reentering_handler : Handler (option RequestContextValue) :=
  AsyncLocalStorage.GetStore (fun s =>
    match s with
    | Some c => runWithRequestContext c getRequestContext
    | None => AsyncLocalStorage.Return None
    end).

(** * The cases of [test/redmine-auth-provider.test.ts]

    The embedding is run on the inputs of the test suite and gives the
    values the tests expect. *)

Section TestSuite.

Import RedmineAuthProvider.

(** The provider after [new RedmineAuthProvider(k, u)] and the calls [cs]. *)
Let provider (k u : option string) (cs : list Call) : t :=
  (history cs (constructor k u ∅).1 (constructor k u ∅).2).1.

Example test_constructor_without_values :
  completion (getAuthStatus (provider None None []) ∅)
    = Returned (mkStatus false None None).
Proof. reflexivity. Qed.

Example test_constructor_with_key_and_user :
  completion (getAuthStatus (provider (Some "test-api-key") (Some "bot") []) ∅)
    = Returned (mkStatus true (Some "test-api...") (Some "bot")).
Proof. reflexivity. Qed.

Example test_setApiKey_updates :
  completion (getAuthStatus
                (provider None None [SetApiKey "first-key"; SetApiKey "second-key"]) ∅)
    = Returned (mkStatus true (Some "second-k...") None).
Proof. reflexivity. Qed.

Example test_getAuthHeaders_without_key :
  exists e, completion (getAuthHeaders (provider None None []) ∅) = Thrown e /\
            contains "Redmine API key not set" (message e).
Proof.
  eexists. split; [reflexivity|].
  exists "", (String.substring 23 (String.length msg_not_set) msg_not_set).
  vm_compute. reflexivity.
Qed.

Example test_getAuthHeaders_with_key :
  let r := getAuthHeaders (provider None None [SetApiKey "test-key"]) ∅ in
  exists l, completion r = Returned l /\
            heap r !! l = Some {[ "X-Redmine-API-Key" := "test-key";
                                  "Accept" := "application/json";
                                  "Content-Type" := "application/json" ]}.
Proof. eexists. split; [reflexivity|]. vm_compute. reflexivity. Qed.

Example test_getAuthHeaders_with_switch_user :
  let r := getAuthHeaders
             (provider None None [SetApiKey "test-key"; SetSwitchUser "bot"]) ∅ in
  exists l o, completion r = Returned l /\ heap r !! l = Some o /\
              o !! "X-Redmine-API-Key" = Some "test-key" /\
              o !! "X-Redmine-Switch-User" = Some "bot" /\
              o !! "Accept" = Some "application/json" /\
              o !! "Content-Type" = Some "application/json".
Proof.
  eexists. eexists. split; [reflexivity|]. split; [vm_compute; reflexivity|].
  repeat split; vm_compute; reflexivity.
Qed.

Example test_clearAuth :
  completion (getAuthStatus
                (provider None None [SetApiKey "test-key"; SetSwitchUser "bot"; ClearAuth]) ∅)
    = Returned (mkStatus false None None).
Proof. reflexivity. Qed.

End TestSuite.

(** * Properties of the authentication providers *)

(** Closes [contains needle s] for closed strings when [s] starts with
    [needle]. *)
Ltac starts_with :=
  match goal with
  | |- contains ?needle ?s =>
      exists "", (String.substring (String.length needle) (String.length s) s);
      vm_compute; reflexivity
  end.

Section AuthErrors.

Import RedmineAuthProvider.

Lemma strict_eq_true (v : option Z) (n : Z) :
  strict_eq v n = true <-> v = Some n.
Proof.
  destruct v as [m|]; simpl.
  - rewrite Z.eqb_eq. split; congruence.
  - split; discriminate.
Qed.

Lemma strict_eq_false (v : option Z) (n : Z) :
  strict_eq v n = false <-> v <> Some n.
Proof.
  rewrite <- strict_eq_true. destruct (strict_eq v n); split; congruence.
Qed.

Lemma response_status_Some (error : AxiosError) (n : Z) :
  response_status error = Some n <->
  exists r, response error = Some r /\ status r = n.
Proof.
  unfold response_status. destruct (response error) as [r|]; simpl; split.
  - intros [= <-]. eauto.
  - intros (r' & [= <-] & <-). reflexivity.
  - discriminate.
  - intros (r' & [=] & _).
Qed.


(** C3: [isAuthError] answers [true] exactly for an error that carries a
    response whose status is 401 or 403; an error without a response, or
    with any other status, gets [false]. *)
Theorem isAuthError_iff_401_403 (error : AxiosError) :
  (isAuthError error = true <->
   exists r, response error = Some r /\ (status r = 401 \/ status r = 403)%Z) /\
  (isAuthError error = false <->
   response error = None \/
   exists r, response error = Some r /\ (status r <> 401 /\ status r <> 403)%Z).
Proof.
  unfold isAuthError. rewrite orb_true_iff, orb_false_iff.
  rewrite !strict_eq_true, !strict_eq_false.
  destruct (response error) as [r|] eqn:Hr.
  - assert (Hs : response_status error = Some (status r))
      by (unfold response_status; rewrite Hr; reflexivity).
    rewrite Hs. split; split.
    + intros [[= H] | [= H]]; exists r; auto.
    + intros (r' & [= <-] & [H | H]); rewrite H; auto.
    + intros [H1 H3]. right. exists r. repeat split; congruence.
    + intros [[=] | (r' & [= <-] & H1 & H3)]. split; congruence.
  - assert (Hs : response_status error = None)
      by (unfold response_status; rewrite Hr; reflexivity).
    rewrite Hs. split; split.
    + intros [[=] | [=]].
    + intros (r' & [=] & _).
    + auto.
    + intros _. split; discriminate.
Qed.

Lemma isAuthError_iff_401_403_witness :
  (isAuthError (mkAxiosError (Some (mkResponse 403))) = true <->
   exists r, response (mkAxiosError (Some (mkResponse 403))) = Some r /\
             (status r = 401 \/ status r = 403)%Z) /\
  (isAuthError (mkAxiosError (Some (mkResponse 403))) = false <->
   response (mkAxiosError (Some (mkResponse 403))) = None \/
   exists r, response (mkAxiosError (Some (mkResponse 403))) = Some r /\
             (status r <> 401 /\ status r <> 403)%Z).
Proof. exact (isAuthError_iff_401_403 (mkAxiosError (Some (mkResponse 403)))). Defined.

(** What [RedmineAuthProvider.handleAuthError] does, by status. *)
Lemma redmine_handleAuthError_cases (error : AxiosError) (this : t) (h : Heap) :
  handleAuthError error this h =
    (if strict_eq (response_status error) 401 then Thrown (mkError msg_401)
     else if strict_eq (response_status error) 403 then Thrown (mkError msg_403)
     else Returned false, this, h).
Proof.
  unfold handleAuthError.
  destruct (strict_eq (response_status error) 401); [reflexivity|].
  destruct (strict_eq (response_status error) 403); reflexivity.
Qed.

(** C2: [RedmineAuthProvider.handleAuthError] throws for the statuses 401
    and 403, with a message that contains "Redmine authentication failed
    (401 Unauthorized)", respectively "Redmine access denied (403
    Forbidden)"; for any other status, and for an error without a
    response, it returns [false]. *)
Theorem redmine_handleAuthError_401_403 (error : AxiosError) (this : t) (h : Heap) :
  (response_status error = Some 401%Z ->
   exists e, handleAuthError error this h = (Thrown e, this, h) /\
     contains "Redmine authentication failed (401 Unauthorized)" (message e)) /\
  (response_status error = Some 403%Z ->
   exists e, handleAuthError error this h = (Thrown e, this, h) /\
     contains "Redmine access denied (403 Forbidden)" (message e)) /\
  (response_status error <> Some 401%Z -> response_status error <> Some 403%Z ->
   handleAuthError error this h = (Returned false, this, h)).
Proof.
  rewrite redmine_handleAuthError_cases. repeat split.
  - intros ->. simpl. eexists. split; [reflexivity|]. starts_with.
  - intros ->. simpl. eexists. split; [reflexivity|]. starts_with.
  - intros H1 H3.
    apply strict_eq_false in H1. apply strict_eq_false in H3.
    rewrite H1, H3. reflexivity.
Qed.

Lemma redmine_handleAuthError_401_403_witness :
  (exists e, handleAuthError (mkAxiosError (Some (mkResponse 401))) initial ∅
             = (Thrown e, initial, ∅) /\
     contains "Redmine authentication failed (401 Unauthorized)" (message e)) /\
  (exists e, handleAuthError (mkAxiosError (Some (mkResponse 403))) initial ∅
             = (Thrown e, initial, ∅) /\
     contains "Redmine access denied (403 Forbidden)" (message e)) /\
  handleAuthError (mkAxiosError (Some (mkResponse 500))) initial ∅
    = (Returned false, initial, ∅) /\
  handleAuthError (mkAxiosError None) initial ∅ = (Returned false, initial, ∅).
Proof.
  split; [|split; [|split]].
  - apply (redmine_handleAuthError_401_403
             (mkAxiosError (Some (mkResponse 401))) initial ∅).
    reflexivity.
  - apply (redmine_handleAuthError_401_403
             (mkAxiosError (Some (mkResponse 403))) initial ∅).
    reflexivity.
  - apply (redmine_handleAuthError_401_403
             (mkAxiosError (Some (mkResponse 500))) initial ∅);
      discriminate.
  - apply (redmine_handleAuthError_401_403 (mkAxiosError None) initial ∅);
      discriminate.
Defined.

(** C7: no shipped provider asks for a retry.
    [StaticAuthProvider.handleAuthError] returns [false] for every error;
    [RedmineAuthProvider.handleAuthError] throws on an authentication
    failure and returns [false] on any other error; so the router's
    reaction to a failed request is never the retry, with either
    provider. *)
Theorem handleAuthError_never_retries (error : AxiosError) (h : Heap) :
  (forall this : StaticAuthProvider.t,
     StaticAuthProvider.handleAuthError error this h = (Returned false, this, h)) /\
  (forall this : RedmineAuthProvider.t,
     match completion (RedmineAuthProvider.handleAuthError error this h) with
     | Returned b => b = false /\ isAuthError error = false
     | Thrown _ => isAuthError error = true
     end) /\
  (forall this : StaticAuthProvider.t, onRequestFailure error this h <> RetryOnce) /\
  (forall this : RedmineAuthProvider.t, onRequestFailure error this h <> RetryOnce).
Proof.
  split; [reflexivity|]. split; [|split].
  - intros this. rewrite redmine_handleAuthError_cases.
    unfold isAuthError, completion. simpl.
    destruct (strict_eq (response_status error) 401); [reflexivity|].
    destruct (strict_eq (response_status error) 403); auto.
  - intros this. unfold onRequestFailure. simpl.
    destruct (isAuthError error); discriminate.
  - intros this. unfold onRequestFailure. simpl.
    rewrite redmine_handleAuthError_cases.
    destruct (isAuthError error); [|discriminate].
    destruct (strict_eq (response_status error) 401); [discriminate|].
    destruct (strict_eq (response_status error) 403); discriminate.
Qed.

Lemma handleAuthError_never_retries_witness :
  onRequestFailure (mkAxiosError (Some (mkResponse 401)))
    (StaticAuthProvider.mk 1%positive) ∅ <> RetryOnce /\
  onRequestFailure (mkAxiosError (Some (mkResponse 401)))
    RedmineAuthProvider.initial ∅ <> RetryOnce.
Proof.
  split;
    apply (handleAuthError_never_retries (mkAxiosError (Some (mkResponse 401))) ∅).
Defined.

End AuthErrors.


Section Providers.

Import RedmineAuthProvider.

Lemma fresh_unused (h : Heap) : h !! fresh (dom h) = None.
Proof. apply not_elem_of_dom, is_fresh. Qed.

Lemma truthy_Some (s : string) : truthy (Some s) = true <-> s <> "".
Proof.
  simpl. rewrite negb_true_iff. apply String.eqb_neq.
Qed.

Lemma truthy_nonempty (v : option string) :
  truthy v = true <-> exists s, v = Some s /\ s <> "".
Proof.
  destruct v as [s|].
  - rewrite truthy_Some. split; [eauto|]. intros (s' & [= <-] & H). exact H.
  - simpl. split; [discriminate|]. intros (s' & [=] & _).
Qed.


Lemma redmine_getAuthHeaders_falsy (this : t) (h : Heap) :
  truthy (apiKey this) = false ->
  getAuthHeaders this h = (Thrown (mkError msg_not_set), this, h).
Proof.
  intros Hk. unfold getAuthHeaders, bind, field.
  destruct (apiKey this) as [k|]; [|reflexivity].
  rewrite Hk. reflexivity.
Qed.

Lemma redmine_getAuthHeaders_truthy (k : string) (this : t) (h : Heap) :
  apiKey this = Some k -> k <> "" ->
  getAuthHeaders this h =
    (Returned (fresh (dom h)), this,
     <[fresh (dom h) := expectedHeaders k (effectiveUser this)]> h).
Proof.
  intros Hk Hne. apply truthy_Some in Hne.
  unfold getAuthHeaders, bind, field, alloc, effectiveUser, whenTruthy.
  rewrite Hk, Hne.
  destruct (switchUser this) as [u|]; [|reflexivity].
  destruct (truthy (Some u)); [|reflexivity].
  unfold setProperty, ret. rewrite alter_insert_eq. reflexivity.
Qed.

(** The provider is the same after each of the three queries. *)
Lemma redmine_queries_frame (this : t) (h : Heap) :
  receiver (getAuthHeaders this h) = this /\
  (forall error, receiver (handleAuthError error this h) = this) /\
  receiver (getAuthStatus this h) = this.
Proof.
  repeat split.
  - destruct (truthy (apiKey this)) eqn:Hk.
    + apply truthy_nonempty in Hk as (k & Hk & Hne).
      rewrite (redmine_getAuthHeaders_truthy k) by assumption. reflexivity.
    + rewrite redmine_getAuthHeaders_falsy by assumption. reflexivity.
  - intros error. rewrite redmine_handleAuthError_cases. reflexivity.
Qed.

(** The key a call leaves in the provider. *)
Lemma perform_apiKey (c : Call) (this : t) (h : Heap) :
  apiKey (perform c this h).1 =
    match c with
    | SetApiKey k => Some k
    | ClearAuth => None
    | _ => apiKey this
    end.
Proof.
  destruct c; try reflexivity; unfold perform, after.
  - pose proof (redmine_queries_frame this h) as (H & _ & _).
    unfold receiver in H. destruct (getAuthHeaders this h) as [[r this'] h'].
    simpl in *. congruence.
  - pose proof (redmine_queries_frame this h) as (_ & H & _).
    specialize (H error).
    unfold receiver in H. destruct (handleAuthError error this h) as [[r this'] h'].
    simpl in *. congruence.
Qed.

Lemma history_apiKey (cs : list Call) (given : bool) (this : t) (h : Heap) :
  (given = false -> apiKey this = None) ->
  keySet given cs = false ->
  apiKey (history cs this h).1 = None.
Proof.
  revert given this h.
  induction cs as [|c cs IH]; intros given this h Hinit Hset; simpl in *.
  - auto.
  - pose proof (perform_apiKey c this h) as Hc.
    destruct (perform c this h) as [this' h']. simpl in Hc.
    destruct c; eapply IH; try eassumption; intros Hg; try discriminate;
      rewrite Hc; auto.
Qed.

Lemma constructor_apiKey (k u : option string) (h : Heap) :
  apiKey (constructor k u h).1 = if truthy k then k else None.
Proof.
  unfold constructor, constructor_body, whenTruthy, bind.
  destruct k as [k|], u as [u|]; simpl;
    repeat (match goal with |- context [String.eqb ?a ?b] => destruct (String.eqb a b) end);
    reflexivity.
Qed.

(** C1, as amended: on a [RedmineAuthProvider] that received no API key, or
    whose key was cleared and not set again, [getAuthHeaders] throws the
    "Redmine API key not set" error; [StaticAuthProvider.getAuthHeaders]
    never throws: it returns a new object with the stored headers, the empty
    mapping for a provider constructed without headers. *)
Theorem getAuthHeaders_without_credentials :
  (forall (k u : option string) (cs : list Call) (h : Heap),
     keySet (bool_decide (is_Some k)) cs = false ->
     let '(this, h') := history cs (constructor k u h).1 (constructor k u h).2 in
     getAuthHeaders this h' = (Thrown (mkError msg_not_set), this, h') /\
     contains "Redmine API key not set" msg_not_set) /\
  (forall (this : StaticAuthProvider.t) (h : Heap),
     StaticAuthProvider.getAuthHeaders this h =
       (Returned (fresh (dom h)), this,
        <[fresh (dom h) := default ∅ (h !! StaticAuthProvider.headers this)]> h)) /\
  (forall h : Heap,
     let '(this, h') := StaticAuthProvider.constructor None h in
     exists l, StaticAuthProvider.getAuthHeaders this h'
                 = (Returned l, this, <[l := ∅]> h') /\ h' !! l = None).
Proof.
  split; [|split].
  - intros k u cs h Hset.
    pose proof (history_apiKey cs (bool_decide (is_Some k))
                  (constructor k u h).1 (constructor k u h).2) as Hk.
    destruct (history cs (constructor k u h).1 (constructor k u h).2)
      as [this h'] eqn:Hh.
    split; [|starts_with].
    apply redmine_getAuthHeaders_falsy. simpl in Hk. rewrite Hk; auto.
    intros Hg. rewrite constructor_apiKey.
    destruct k; [|reflexivity]. rewrite bool_decide_eq_false in Hg.
    exfalso. apply Hg. eauto.
  - reflexivity.
  - intros h. simpl. eexists. split.
    + unfold StaticAuthProvider.getAuthHeaders, bind, field, properties, alloc.
      simpl. rewrite lookup_insert_eq. reflexivity.
    + apply fresh_unused.
Qed.

Lemma getAuthHeaders_without_credentials_witness :
  keySet (bool_decide (is_Some (Some "key"))) [GetAuthStatus; ClearAuth; SetSwitchUser "bot"] = false /\
  getAuthHeaders (mk None (Some "bot")) ∅
    = (Thrown (mkError msg_not_set), mk None (Some "bot"), ∅).
Proof.
  split; [reflexivity|].
  exact (proj1 (proj1 getAuthHeaders_without_credentials (Some "key") None
                  [GetAuthStatus; ClearAuth; SetSwitchUser "bot"] ∅ eq_refl)).
Defined.

(** C1, the counterexample: a [StaticAuthProvider] constructed without
    headers holds no credentials, and its [getAuthHeaders] returns (a new,
    empty object) instead of throwing. *)
Lemma static_getAuthHeaders_without_headers_returns :
  let '(this, h) := StaticAuthProvider.constructor None ∅ in
  h !! StaticAuthProvider.headers this = Some ∅ /\
  ~ throws (completion (StaticAuthProvider.getAuthHeaders this h)) /\
  exists l, completion (StaticAuthProvider.getAuthHeaders this h) = Returned l /\
            heap (StaticAuthProvider.getAuthHeaders this h) !! l = Some ∅.
Proof.
  vm_compute. split; [reflexivity|]. split.
  - intros [e He]. discriminate He.
  - eexists. split; reflexivity.
Qed.

Lemma effectiveUser_Some (this : t) (u : string) :
  effectiveUser this = Some u <-> switchUser this = Some u /\ u <> "".
Proof.
  unfold effectiveUser. destruct (truthy (switchUser this)) eqn:Hu.
  - apply truthy_nonempty in Hu as (u' & Hu & Hne). rewrite Hu.
    split; [intros [= <-]; auto | intros [H _]; exact H].
  - split; [discriminate|]. intros [H Hne]. rewrite H in Hu.
    apply truthy_Some in Hne. congruence.
Qed.

(** C4, as amended: when the API key [k] of a [RedmineAuthProvider] is a
    non-empty string, [getAuthHeaders] returns a new object that is exactly
    the mapping of "X-Redmine-API-Key" to [k] and of "Accept" and
    "Content-Type" to "application/json", extended with
    "X-Redmine-Switch-User" exactly when the switch user is a non-empty
    string; the mapping has no "Authorization" header. *)
Theorem redmine_getAuthHeaders_with_key (k : string) (this : t) (h : Heap) :
  apiKey this = Some k -> k <> "" ->
  exists (l : loc) (sent : option string),
    getAuthHeaders this h = (Returned l, this, <[l := expectedHeaders k sent]> h) /\
    h !! l = None /\
    (forall u, sent = Some u <-> switchUser this = Some u /\ u <> "") /\
    (forall u, expectedHeaders k sent !! "X-Redmine-Switch-User" = Some u <->
               switchUser this = Some u /\ u <> "") /\
    expectedHeaders k sent !! "Authorization" = None.
Proof.
  intros Hk Hne. exists (fresh (dom h)), (effectiveUser this).
  split; [apply redmine_getAuthHeaders_truthy; assumption|].
  split; [apply fresh_unused|].
  split; [apply effectiveUser_Some|]. split.
  - intros u. rewrite <- effectiveUser_Some.
    unfold expectedHeaders. destruct (effectiveUser this) as [u'|].
    + rewrite lookup_insert_eq. reflexivity.
    + split; [|discriminate]. intros H. exfalso. revert H.
      rewrite !lookup_insert_ne by discriminate.
      rewrite lookup_singleton_ne by discriminate. discriminate.
  - unfold expectedHeaders. destruct (effectiveUser this) as [u'|];
      rewrite !lookup_insert_ne by discriminate;
      apply lookup_singleton_ne; discriminate.
Qed.

Lemma redmine_getAuthHeaders_with_key_witness :
  apiKey (mk (Some "test-key") (Some "bot")) = Some "test-key" /\
  "test-key" <> "" /\
  exists (l : loc) (sent : option string),
    getAuthHeaders (mk (Some "test-key") (Some "bot")) ∅
      = (Returned l, mk (Some "test-key") (Some "bot"),
         <[l := expectedHeaders "test-key" sent]> ∅) /\
    (∅ : Heap) !! l = None /\
    (forall u, sent = Some u <-> Some "bot" = Some u /\ u <> "") /\
    (forall u, expectedHeaders "test-key" sent !! "X-Redmine-Switch-User" = Some u <->
               Some "bot" = Some u /\ u <> "") /\
    expectedHeaders "test-key" sent !! "Authorization" = None.
Proof.
  split; [reflexivity|]. split; [discriminate|].
  apply (redmine_getAuthHeaders_with_key "test-key"
           (mk (Some "test-key") (Some "bot")) ∅).
  - reflexivity.
  - discriminate.
Defined.

(** C4, the counterexample: after [setApiKey("")] a key is set, the empty
    string, and [getAuthHeaders] throws. *)
Lemma redmine_getAuthHeaders_empty_key_throws :
  let '(this, h) := after (setApiKey "") initial ∅ in
  apiKey this = Some "" /\
  completion (getAuthHeaders this h) = Thrown (mkError msg_not_set) /\
  ~ exists l, completion (getAuthHeaders this h) = Returned l.
Proof.
  simpl. split; [reflexivity|]. split; [reflexivity|].
  intros [l Hl]. discriminate Hl.
Qed.

(** ** The preview of the API key *)

Lemma substring_first_chars (m : nat) (s : string) :
  String.substring 0 m s = first_chars m s.
Proof.
  revert s. induction m as [|m IH]; intros [|c s]; simpl; try reflexivity.
  rewrite IH. reflexivity.
Qed.

Lemma first_chars_min (n : nat) (s : string) :
  first_chars (Nat.min n (String.length s)) s = first_chars n s.
Proof.
  revert s. induction n as [|n IH]; intros [|c s]; simpl; try reflexivity.
  rewrite IH. reflexivity.
Qed.

Lemma js_substring_first_chars (n : nat) (s : string) :
  js_substring s 0 n = first_chars n s.
Proof.
  unfold js_substring. rewrite Nat.min_0_l. simpl. rewrite Nat.sub_0_r.
  rewrite substring_first_chars. apply first_chars_min.
Qed.

Lemma agree_upto_first_chars (n : nat) (s1 s2 : string) :
  agree_upto n s1 s2 -> first_chars n s1 = first_chars n s2.
Proof.
  revert s1 s2. induction n as [|n IH]; intros s1 s2 H; [destruct s1, s2; reflexivity|].
  pose proof (H 0 ltac:(lia)) as H0.
  destruct s1 as [|c1 s1], s2 as [|c2 s2]; simpl in *; try discriminate.
  - reflexivity.
  - injection H0 as ->. f_equal. apply IH.
    intros i Hi. apply (H (S i)). lia.
Qed.

Lemma agree_upto_truthy (n : nat) (s1 s2 : string) :
  0 < n -> agree_upto n s1 s2 -> truthy (Some s1) = truthy (Some s2).
Proof.
  intros Hn H. pose proof (H 0 Hn) as H0.
  destruct s1, s2; simpl in *; try discriminate; reflexivity.
Qed.

#[local] Arguments first_chars : simpl never.

Lemma getAuthStatus_value (this : t) (h : Heap) :
  getAuthStatus this h =
    (Returned (mkStatus (truthy (apiKey this))
                 (if truthy (apiKey this)
                  then (fun k => first_chars 8 k +:+ "...") <$> apiKey this
                  else None)
                 (switchUser this)), this, h).
Proof.
  unfold getAuthStatus, bind, field, ret.
  destruct (apiKey this) as [k|]; [|reflexivity].
  rewrite js_substring_first_chars. reflexivity.
Qed.

(** C8, as amended: [getAuthStatus] reveals at most the first 8 characters
    of the API key.  Two providers whose keys are both set and agree on
    their first 8 characters, and whose switch users are equal, get equal
    results.  [apiKeyPreview] is the first 8 characters of the key followed
    by "..." when the key is a non-empty string, and [null] when the key is
    [null] or the empty string; so [hasApiKey] is [true] exactly when
    [apiKeyPreview] is not [null]. *)
Theorem getAuthStatus_reveals_prefix :
  (forall (this1 this2 : t) (h1 h2 : Heap) (k1 k2 : string),
     apiKey this1 = Some k1 -> apiKey this2 = Some k2 ->
     agree_upto 8 k1 k2 -> switchUser this1 = switchUser this2 ->
     completion (getAuthStatus this1 h1) = completion (getAuthStatus this2 h2)) /\
  (forall (this : t) (h : Heap),
     exists st, getAuthStatus this h = (Returned st, this, h) /\
       (forall k, apiKey this = Some k -> k <> "" ->
                  apiKeyPreview st = Some (first_chars 8 k +:+ "...")) /\
       (apiKey this = None \/ apiKey this = Some "" -> apiKeyPreview st = None) /\
       (hasApiKey st = true <-> apiKeyPreview st <> None) /\
       status_switchUser st = switchUser this).
Proof.
  split.
  - intros this1 this2 h1 h2 k1 k2 H1 H2 Hagree Hu.
    rewrite !getAuthStatus_value. unfold completion. simpl.
    rewrite H1, H2, Hu.
    rewrite (agree_upto_truthy 8 k1 k2) by (lia || assumption).
    pose proof (agree_upto_first_chars 8 k1 k2 Hagree) as Hfirst.
    destruct (truthy (Some k2)); cbn [fmap option_fmap option_map];
      [rewrite Hfirst|]; reflexivity.
  - intros this h. rewrite getAuthStatus_value. eexists. split; [reflexivity|].
    simpl. repeat split.
    + intros k Hk Hne. rewrite Hk. apply truthy_Some in Hne. rewrite Hne.
      reflexivity.
    + intros [-> | ->]; reflexivity.
    + intros Ht. rewrite Ht. apply truthy_nonempty in Ht as (k & -> & _).
      discriminate.
    + destruct (truthy (apiKey this)); [reflexivity|]. intros H. contradiction.
Qed.

Lemma getAuthStatus_reveals_prefix_witness :
  (apiKey (mk (Some "test-api-key") None) = Some "test-api-key" /\
   apiKey (mk (Some "test-api-other") None) = Some "test-api-other" /\
   agree_upto 8 "test-api-key" "test-api-other" /\
   completion (getAuthStatus (mk (Some "test-api-key") None) ∅)
     = completion (getAuthStatus (mk (Some "test-api-other") None) ∅)) /\
  (exists st, getAuthStatus (mk (Some "test-api-key") None) ∅
                = (Returned st, mk (Some "test-api-key") None, ∅) /\
              apiKeyPreview st = Some "test-api...").
Proof.
  assert (Hagree : agree_upto 8 "test-api-key" "test-api-other").
  { intros i Hi. do 8 (destruct i as [|i]; [reflexivity|]). lia. }
  split.
  - split; [reflexivity|]. split; [reflexivity|]. split; [exact Hagree|].
    apply (proj1 getAuthStatus_reveals_prefix _ _ ∅ ∅ "test-api-key" "test-api-other");
      [reflexivity | reflexivity | exact Hagree | reflexivity].
  - destruct (proj2 getAuthStatus_reveals_prefix (mk (Some "test-api-key") None) ∅)
      as (st & Hst & Hprev & _).
    exists st. split; [exact Hst|].
    apply (Hprev "test-api-key"); [reflexivity | discriminate].
Defined.

(** C8, the counterexample: after [setApiKey("")] a key is set, yet
    [apiKeyPreview] is [null], not the first 8 characters of the key
    followed by "...". *)
Lemma getAuthStatus_empty_key_preview_null :
  let '(this, h) := after (setApiKey "") initial ∅ in
  apiKey this = Some "" /\
  exists st, completion (getAuthStatus this h) = Returned st /\
             apiKeyPreview st = None /\
             apiKeyPreview st <> Some (first_chars 8 "" +:+ "...").
Proof.
  simpl. split; [reflexivity|]. eexists. split; [reflexivity|].
  split; [reflexivity|discriminate].
Qed.

(** ** Frame *)

Lemma static_getAuthHeaders_value (this : StaticAuthProvider.t) (h : Heap) :
  StaticAuthProvider.getAuthHeaders this h =
    (Returned (fresh (dom h)), this,
     <[fresh (dom h) := default ∅ (h !! StaticAuthProvider.headers this)]> h).
Proof. reflexivity. Qed.

(** C9: the queries leave the provider as it was.  After
    [getAuthHeaders], [handleAuthError] and [getAuthStatus] a
    [RedmineAuthProvider] has the [apiKey] and [switchUser] it had, whether
    the call returned or threw; a call that changes them is [setApiKey],
    [setSwitchUser] or [clearAuth].  [StaticAuthProvider.getAuthHeaders]
    leaves the stored headers object untouched and returns an object that
    did not exist before, holds the same headers, and can be written to
    without touching the stored one. *)
Theorem queries_leave_provider_unchanged :
  (forall (this : t) (h : Heap),
     receiver (getAuthHeaders this h) = this /\
     (forall error, receiver (handleAuthError error this h) = this) /\
     receiver (getAuthStatus this h) = this) /\
  (forall (c : Call) (this : t) (h : Heap),
     (perform c this h).1 <> this -> is_setter c = true) /\
  (forall (this : StaticAuthProvider.t) (h : Heap) (stored : HeaderRecord),
     h !! StaticAuthProvider.headers this = Some stored ->
     exists l h',
       StaticAuthProvider.getAuthHeaders this h = (Returned l, this, h') /\
       h' !! StaticAuthProvider.headers this = Some stored /\
       l <> StaticAuthProvider.headers this /\
       h !! l = None /\
       h' !! l = Some stored /\
       forall key value,
         heap (setProperty l key value this h') !! StaticAuthProvider.headers this
           = Some stored).
Proof.
  split; [exact redmine_queries_frame|]. split.
  - intros c this h Hne.
    pose proof (redmine_queries_frame this h) as (Hh & He & Hs).
    unfold receiver in *.
    destruct c; try reflexivity; exfalso; apply Hne; unfold perform, after.
    + destruct (getAuthHeaders this h) as [[r this'] h']. exact Hh.
    + specialize (He error).
      destruct (handleAuthError error this h) as [[r this'] h']. exact He.
    + destruct (getAuthStatus this h) as [[r this'] h']. exact Hs.
  - intros this h stored Hstored.
    assert (Hl : fresh (dom h) <> StaticAuthProvider.headers this).
    { intros Heq. pose proof (fresh_unused h) as Hf. rewrite Heq in Hf. congruence. }
    exists (fresh (dom h)), (<[fresh (dom h) := stored]> h).
    split; [rewrite static_getAuthHeaders_value, Hstored; reflexivity|].
    split; [rewrite lookup_insert_ne by exact Hl; exact Hstored|].
    split; [exact Hl|]. split; [apply fresh_unused|].
    split; [apply lookup_insert_eq|].
    intros key value. unfold setProperty, heap. simpl.
    rewrite lookup_alter_ne by exact Hl.
    rewrite lookup_insert_ne by exact Hl. exact Hstored.
Qed.

Lemma queries_leave_provider_unchanged_witness :
  (<[1%positive := {[ "Authorization" := "Bearer t" ]}]> ∅ : Heap)
     !! StaticAuthProvider.headers (StaticAuthProvider.mk 1%positive)
    = Some {[ "Authorization" := "Bearer t" ]} /\
  exists l h',
    StaticAuthProvider.getAuthHeaders (StaticAuthProvider.mk 1%positive)
        (<[1%positive := {[ "Authorization" := "Bearer t" ]}]> ∅)
      = (Returned l, StaticAuthProvider.mk 1%positive, h') /\
    h' !! 1%positive = Some {[ "Authorization" := "Bearer t" ]} /\
    l <> 1%positive /\
    h' !! l = Some {[ "Authorization" := "Bearer t" ]}.
Proof.
  assert (Hstored :
    (<[1%positive := {[ "Authorization" := "Bearer t" ]}]> ∅ : Heap)
       !! StaticAuthProvider.headers (StaticAuthProvider.mk 1%positive)
      = Some {[ "Authorization" := "Bearer t" ]}) by (vm_compute; reflexivity).
  split; [exact Hstored|].
  destruct (proj2 (proj2 queries_leave_provider_unchanged)
              (StaticAuthProvider.mk 1%positive)
              (<[1%positive := {[ "Authorization" := "Bearer t" ]}]> ∅)
              {[ "Authorization" := "Bearer t" ]} Hstored)
    as (l & h' & Hcall & Hkept & Hne & _ & Hcopy & _).
  exists l, h'. auto.
Defined.

End Providers.

(** * Properties of the request context *)

Section StorageFacts.

Import AsyncLocalStorage.

Variable T : Type.

(** [run] puts the previous store back: any code leaves the current store
    as it found it. *)
Lemma exec_current {A} (p : AsyncLocalStorage.Code T A) (ch : nat) (st : State T) :
  current (exec p ch st).2 = current st.
Proof.
  revert ch st. induction p as [A a | A e | A k IH | A B store callback IHc k IHk
                               | A B job IHj k IHk]; intros ch st; simpl.
  - reflexivity.
  - reflexivity.
  - rewrite IH. reflexivity.
  - destruct (exec callback ch (set_current (Some store) st)) as [[b|e] st'].
    + rewrite IHk. reflexivity.
    + reflexivity.
  - rewrite IHk. reflexivity.
Qed.

Lemma exec_andThen {A B} (p : AsyncLocalStorage.Code T A)
    (k : A -> AsyncLocalStorage.Code T B) (ch : nat) (st : State T) :
  exec (andThen p k) ch st =
    match exec p ch st with
    | (Returned a, st') => exec (k a) ch st'
    | (Thrown e, st') => (Thrown e, st')
    end.
Proof.
  revert ch st. induction p as [A a | A e | A k' IH | A C store callback IHc k' IHk
                               | A C job IHj k' IHk]; intros ch st; simpl.
  - reflexivity.
  - reflexivity.
  - apply IH.
  - destruct (exec callback ch (set_current (Some store) st)) as [[c|e] st'].
    + apply IHk.
    + reflexivity.
  - apply IHk.
Qed.

(** Code whose scopes all open on stores within [X] is within [X] wherever
    the surrounding store is. *)
Lemma opens_scoped (P : T -> Prop) (X : option T -> Prop) {A}
    (p : AsyncLocalStorage.Code T A) (cur : option T) :
  (forall s, P s -> X (Some s)) -> X cur -> opens P p -> scoped X cur p.
Proof.
  intros HP. revert cur.
  induction p as [A a | A e | A k IH | A B store callback IHc k IHk
                 | A B job IHj k IHk]; intros cur Hcur Hp; simpl in *.
  - exact I.
  - exact I.
  - split; [exact Hcur|]. apply IH; auto.
  - destruct Hp as (Hs & Hc & Hk). split.
    + apply IHc; auto.
    + intros b. apply IHk; auto.
  - destruct Hp as [Hj Hk]. split; [apply IHj | apply IHk]; auto.
Qed.

Variable X : nat -> option T -> Prop.

(** Synchronous execution keeps the state within [X]. *)
Lemma exec_within {A} (p : AsyncLocalStorage.Code T A) (ch : nat) (st : State T) :
  scoped (X ch) (current st) p -> state_within X st ->
  state_within X (exec p ch st).2.
Proof.
  revert ch st. induction p as [A a | A e | A k IH | A B store callback IHc k IHk
                               | A B job IHj k IHk]; intros ch st Hp Hst; simpl in *.
  - exact Hst.
  - exact Hst.
  - destruct Hp as [Hcur Hk]. apply IH; [exact Hk|].
    destruct Hst as [Hq Ht]. split; [exact Hq|]. simpl.
    apply Forall_app. split; [exact Ht|]. constructor; [exact Hcur | constructor].
  - destruct Hp as [Hc Hk].
    assert (Hin : state_within X (set_current (Some store) st)) by exact Hst.
    pose proof (IHc ch (set_current (Some store) st) Hc Hin) as Hout.
    destruct (exec callback ch (set_current (Some store) st)) as [[b|e] st'];
      simpl in Hout.
    + apply IHk; [apply Hk | exact Hout].
    + exact Hout.
  - destruct Hp as [Hj Hk]. apply IHk; [exact Hk|].
    destruct Hst as [Hq Ht]. split; [|exact Ht]. simpl.
    apply Forall_app. split; [exact Hq|]. constructor; [exact Hj | constructor].
Qed.

Lemma turn_within (n : nat) (st : State T) :
  state_within X st -> state_within X (turn n st).
Proof.
  intros [Hq Ht]. unfold turn.
  destruct (queue st !! n) as [j|] eqn:Hj; [|split; assumption].
  apply exec_within; simpl.
  - exact (proj1 (Forall_lookup _ _) Hq n j Hj).
  - split; [|exact Ht]. simpl.
    apply Forall_delete, Hq.
Qed.

Lemma loop_within (sched : list nat) (st : State T) :
  state_within X st -> state_within X (loop sched st).
Proof.
  revert st. induction sched as [|n sched IH]; intros st Hst; simpl.
  - exact Hst.
  - apply IH, turn_within, Hst.
Qed.

(** Dynamic propagation agrees with lexical scoping: when the handler of
    every inbound request is within [X], so is every observation, under
    every schedule. *)
Lemma serve_within (requests : list (Job T)) (sched : list nat) :
  Forall (job_within X) requests ->
  Forall (observation_within X) (trace (serve requests sched)).
Proof.
  intros Hreq. apply (loop_within sched (mkState None requests [])).
  split; [exact Hreq | constructor].
Qed.

End StorageFacts.

Section ScopeLogFacts.

Import AsyncLocalStorage.

Variable T : Type.

(** The log is an addition: without it [exec_log] is [exec]. *)
Lemma exec_log_exec {A} (p : AsyncLocalStorage.Code T A) (ch : nat) (st : State T)
    (log : list (nat * T)) :
  (exec_log p ch st log).1 = exec p ch st.
Proof.
  revert ch st log.
  induction p as [A a | A e | A k IH | A B store callback IHc k IHk
                 | A B job IHj k IHk]; intros ch st log; simpl.
  - reflexivity.
  - reflexivity.
  - apply IH.
  - pose proof (IHc ch (set_current (Some store) st) (log ++ [(ch, store)])%list) as Hc.
    destruct (exec_log callback ch (set_current (Some store) st) (log ++ [(ch, store)])%list)
      as [[r st'] log'].
    simpl in Hc. rewrite <- Hc. destruct r as [b|e]; [apply IHk | reflexivity].
  - apply IHk.
Qed.

Lemma turn_log_turn (n : nat) (s : State T * list (nat * T)) :
  (turn_log n s).1 = turn n s.1.
Proof.
  unfold turn_log, turn. destruct (queue s.1 !! n) as [j|]; [|reflexivity].
  simpl. rewrite <- (exec_log_exec _ _ _ s.2). reflexivity.
Qed.

Lemma loop_log_loop (sched : list nat) (s : State T * list (nat * T)) :
  (loop_log sched s).1 = loop sched s.1.
Proof.
  revert s. induction sched as [|n sched IH]; intros s; simpl.
  - reflexivity.
  - rewrite IH, turn_log_turn. reflexivity.
Qed.

Lemma observed_opened_mono (log log' : list (nat * T)) (o : Observation T) :
  (forall e, e ∈ log -> e ∈ log') -> observed_opened log o -> observed_opened log' o.
Proof. intros Hsub Ho s Hs. apply Hsub, Ho, Hs. Qed.

Lemma captured_opened_mono (log log' : list (nat * T)) (j : Job T) :
  (forall e, e ∈ log -> e ∈ log') -> captured_opened log j -> captured_opened log' j.
Proof. intros Hsub Hj s Hs. apply Hsub, Hj, Hs. Qed.

(** Synchronous execution keeps every observation and every captured store
    accounted for by the log, and the log only grows. *)
Lemma exec_log_opened {A} (p : AsyncLocalStorage.Code T A) (ch : nat) (st : State T)
    (log : list (nat * T)) :
  Forall (captured_opened log) (queue st) ->
  Forall (observed_opened log) (trace st) ->
  (forall s, current st = Some s -> (ch, s) ∈ log) ->
  Forall (captured_opened (exec_log p ch st log).2) (queue (exec_log p ch st log).1.2) /\
  Forall (observed_opened (exec_log p ch st log).2) (trace (exec_log p ch st log).1.2) /\
  (forall e, e ∈ log -> e ∈ (exec_log p ch st log).2) /\
  current (exec_log p ch st log).1.2 = current st.
Proof.
  revert ch st log.
  induction p as [A a | A e | A k IH | A B store callback IHc k IHk
                 | A B job IHj k IHk]; intros ch st log Hq Ht Hcur; simpl.
  - auto.
  - auto.
  - destruct (IH (current st) ch (observe ch st) log) as (Hq' & Ht' & Hmono' & Hcur');
      simpl; [exact Hq | | exact Hcur | auto].
    apply Forall_app. split; [exact Ht|].
    constructor; [|constructor]. intros s Hs. apply Hcur, Hs.
  - assert (Hsub : forall e, e ∈ log -> e ∈ (log ++ [(ch, store)])%list).
    { intros e He. apply elem_of_app. left. exact He. }
    destruct (IHc ch (set_current (Some store) st) (log ++ [(ch, store)])%list)
      as (Hq' & Ht' & Hmono' & Hcur').
    + simpl. eapply Forall_impl; [exact Hq|]. intros j. apply captured_opened_mono, Hsub.
    + simpl. eapply Forall_impl; [exact Ht|]. intros o. apply observed_opened_mono, Hsub.
    + simpl. intros s [= <-]. apply elem_of_app. right. apply list_elem_of_singleton.
      reflexivity.
    + destruct (exec_log callback ch (set_current (Some store) st) (log ++ [(ch, store)])%list)
        as [[[b|e] st'] log']; simpl in *.
      * destruct (IHk b ch (set_current (current st) st') log')
          as (Hq2 & Ht2 & Hmono2 & Hcur2); simpl; auto.
        split; [exact Hq2|]. split; [exact Ht2|].
        split; [intros e He; apply Hmono2, Hmono', Hsub, He | exact Hcur2].
      * split; [exact Hq'|]. split; [exact Ht'|].
        split; [intros e0 He; apply Hmono', Hsub, He | reflexivity].
  - destruct (IHk ch (enqueue ch job st) log) as (Hq' & Ht' & Hmono' & Hcur');
      simpl; [| exact Ht | exact Hcur | auto].
    apply Forall_app. split; [exact Hq|].
    constructor; [|constructor]. intros s Hs. apply Hcur, Hs.
Qed.

Lemma turn_log_opened (n : nat) (s : State T * list (nat * T)) :
  Forall (captured_opened s.2) (queue s.1) /\ Forall (observed_opened s.2) (trace s.1) ->
  Forall (captured_opened (turn_log n s).2) (queue (turn_log n s).1) /\
  Forall (observed_opened (turn_log n s).2) (trace (turn_log n s).1).
Proof.
  intros [Hq Ht]. unfold turn_log.
  destruct (queue s.1 !! n) as [j|] eqn:Hj; [|split; assumption].
  simpl.
  destruct (exec_log_opened (body j) (chain j)
              (mkState (captured j) (delete n (queue s.1)) (trace s.1)) s.2)
    as (Hq' & Ht' & _ & _); simpl.
  - apply Forall_delete, Hq.
  - exact Ht.
  - exact (proj1 (Forall_lookup _ _) Hq n j Hj).
  - split; assumption.
Qed.

Lemma loop_log_opened (sched : list nat) (s : State T * list (nat * T)) :
  Forall (captured_opened s.2) (queue s.1) /\ Forall (observed_opened s.2) (trace s.1) ->
  Forall (captured_opened (loop_log sched s).2) (queue (loop_log sched s).1) /\
  Forall (observed_opened (loop_log sched s).2) (trace (loop_log sched s).1).
Proof.
  revert s. induction sched as [|n sched IH]; intros s Hs; simpl.
  - exact Hs.
  - apply IH, turn_log_opened, Hs.
Qed.

(** A chain is only ever answered a store that the chain itself opened a
    scope on: whatever the handlers do and under every schedule, each
    observation of a store is accounted for by a [run] call of the same
    chain. *)
Lemma observations_were_opened (requests : list (Job T)) (sched : list nat) :
  Forall (fun j => captured j = None) requests ->
  Forall (observed_opened (scopes_opened requests sched))
         (trace (serve requests sched)).
Proof.
  intros Hreq. unfold scopes_opened, serve.
  pose proof (loop_log_loop sched (mkState None requests [], [])) as Hloop.
  simpl in Hloop. rewrite <- Hloop.
  apply loop_log_opened. simpl. split; [|constructor].
  eapply Forall_impl; [exact Hreq|]. intros j Hj s Hs. congruence.
Qed.

End ScopeLogFacts.

Section RequestContext.

Import AsyncLocalStorage.

Lemma scope_free_scoped {A} (c : option RequestContextValue) (p : Handler A) :
  scope_free p -> scoped (fun s => s = c) c p.
Proof.
  intros Hp. apply (opens_scoped _ (fun _ => False)); [contradiction | reflexivity | exact Hp].
Qed.

(** C5, as amended: [runWithRequestContext(c, f)] completes as [f] does
    with [c] as the current context, returning what [f] returns, and puts
    the previous context back.  When [f] opens no scope of its own, every
    [getRequestContext()] of its call chain, the synchronous part and the
    jobs it leaves to the event loop, under every schedule, is answered [c];
    when it does, [c] is answered again once the nested scope is left.
    [getRequestContext()] outside every scope is answered [undefined]: at
    top level, in the call chain of code that opens no scope, and after a
    scope has been left. *)
Theorem request_context_read_faithful :
  (forall A (c : RequestContextValue) (f : Handler A) (ch : nat) (st : State _),
     exec (runWithRequestContext c f) ch st =
       ((exec f ch (set_current (Some c) st)).1,
        set_current (current st) (exec f ch (set_current (Some c) st)).2)) /\
  (forall A (c : RequestContextValue) (f : Handler A) (ch : nat) (sched : list nat),
     scope_free f ->
     Forall (fun o => seen o = Some c)
            (trace (serve [inbound ch (runWithRequestContext c f)] sched))) /\
  (forall A (c : RequestContextValue) (g : Handler A) (ch : nat) (st : State _) r,
     (exec (runWithRequestContext c (andThen g (fun _ => getRequestContext))) ch st).1
       = Returned r ->
     r = Some c) /\
  (forall (ch : nat) (q : list (Job _)) (tr : list (Observation _)),
     (exec getRequestContext ch (mkState None q tr)).1 = Returned None) /\
  (forall A (p : Handler A) (ch : nat) (sched : list nat),
     scope_free p ->
     Forall (fun o => seen o = None) (trace (serve [inbound ch p] sched))) /\
  (forall A (c : RequestContextValue) (f : Handler A) (ch : nat) (st : State _) r,
     current st = None ->
     (exec (andThen (runWithRequestContext c f) (fun _ => getRequestContext)) ch st).1
       = Returned r ->
     r = None).
Proof.
  split; [|split; [|split; [|split; [|split]]]].
  - intros A c f ch st. simpl.
    destruct (exec f ch (set_current (Some c) st)) as [[b|e] st']; reflexivity.
  - intros A c f ch sched Hf.
    apply (serve_within _ (fun _ s => s = Some c)).
    constructor; [|constructor].
    split; [|intros b; exact I].
    apply scope_free_scoped, Hf.
  - intros A c g ch st r. simpl. rewrite exec_andThen.
    pose proof (exec_current _ g ch (set_current (Some c) st)) as Hback.
    destruct (exec g ch (set_current (Some c) st)) as [[b|e] st'];
      simpl in *; [|discriminate].
    intros [= <-]. exact Hback.
  - reflexivity.
  - intros A p ch sched Hp.
    apply (serve_within _ (fun _ s => s = None)).
    constructor; [|constructor].
    apply scope_free_scoped, Hp.
  - intros A c f ch st r Hcur. rewrite exec_andThen.
    pose proof (exec_current _ (runWithRequestContext c f) ch st) as Hback.
    destruct (exec (runWithRequestContext c f) ch st) as [[b|e] st'];
      simpl in *; [|discriminate].
    intros [= <-]. congruence.
Qed.

Lemma request_context_read_faithful_witness :
  scope_free awaiting_handler /\
  trace (serve [inbound 0 (runWithRequestContext ctx_a awaiting_handler)] [0; 0])
    = [mkObservation 0 (Some ctx_a); mkObservation 0 (Some ctx_a)] /\
  Forall (fun o => seen o = Some ctx_a)
         (trace (serve [inbound 0 (runWithRequestContext ctx_a awaiting_handler)] [0; 0])) /\
  Forall (fun o => seen o = None)
         (trace (serve [inbound 0 awaiting_handler] [0; 0])).
Proof.
  assert (Hfree : scope_free awaiting_handler).
  { unfold scope_free. simpl. auto. }
  split; [exact Hfree|]. split; [reflexivity|]. split.
  - apply (proj1 (proj2 request_context_read_faithful)), Hfree.
  - apply (proj1 (proj2 (proj2 (proj2 (proj2 request_context_read_faithful))))), Hfree.
Defined.

(** C5, the counterexample: a callback that opens a scope of its own on
    [ctx_b] has its [getRequestContext()] answered [ctx_b], not the
    [ctx_a] of the enclosing [runWithRequestContext]. *)
Lemma nested_scope_answers_inner_context :
  trace (serve [inbound 0 (runWithRequestContext ctx_a nested_handler)] [0])
    = [mkObservation 0 (Some ctx_b)] /\
  Some ctx_b <> Some ctx_a /\
  ~ Forall (fun o => seen o = Some ctx_a)
       (trace (serve [inbound 0 (runWithRequestContext ctx_a nested_handler)] [0])).
Proof.
  split; [reflexivity|]. split; [discriminate|].
  intros H. apply Forall_inv in H. discriminate H.
Qed.

(** C10, as amended: two inbound requests, each handled inside its own
    [runWithRequestContext] scope, on distinct contexts [c1] and [c2],
    whatever their handlers are: under every interleaving of their jobs, no
    [getRequestContext()] of one request's call chain is answered the
    context of the other, unless the handler of that request itself opens a
    scope on it, that is, unless that chain makes a [runWithRequestContext]
    call on it during the run. *)
Theorem request_contexts_isolated A1 A2 (c1 c2 : RequestContextValue)
    (f1 : Handler A1) (f2 : Handler A2) (ch1 ch2 : nat) (sched : list nat) :
  c1 <> c2 -> ch1 <> ch2 ->
  (~ (ch1, c2) ∈ scopes_opened [inbound ch1 (runWithRequestContext c1 f1);
                                inbound ch2 (runWithRequestContext c2 f2)] sched ->
   Forall (fun o => by_chain o = ch1 -> seen o <> Some c2)
          (trace (serve [inbound ch1 (runWithRequestContext c1 f1);
                         inbound ch2 (runWithRequestContext c2 f2)] sched))) /\
  (~ (ch2, c1) ∈ scopes_opened [inbound ch1 (runWithRequestContext c1 f1);
                                inbound ch2 (runWithRequestContext c2 f2)] sched ->
   Forall (fun o => by_chain o = ch2 -> seen o <> Some c1)
          (trace (serve [inbound ch1 (runWithRequestContext c1 f1);
                         inbound ch2 (runWithRequestContext c2 f2)] sched))).
Proof.
  intros _ _.
  pose proof (observations_were_opened _
                [inbound ch1 (runWithRequestContext c1 f1);
                 inbound ch2 (runWithRequestContext c2 f2)] sched) as Hall.
  assert (Hinbound : Forall (fun j => captured j = None)
            [inbound ch1 (runWithRequestContext c1 f1);
             inbound ch2 (runWithRequestContext c2 f2)])
    by (repeat constructor).
  specialize (Hall Hinbound).
  split; intros Hnot; eapply Forall_impl; try exact Hall;
    intros o Ho Hch Hseen; pose proof (Ho _ Hseen) as Hin;
    rewrite Hch in Hin; exact (Hnot Hin).
Qed.

Lemma request_contexts_isolated_witness :
  ctx_a <> ctx_b /\
  scopes_opened [inbound 1 (runWithRequestContext ctx_a reentering_handler);
                 inbound 2 (runWithRequestContext ctx_b
                              (runWithRequestContext ctx_a awaiting_handler))]
                [1; 0; 0]
    = [(2, ctx_b); (2, ctx_a); (1, ctx_a); (1, ctx_a)] /\
  ~ (1, ctx_b) ∈ scopes_opened
        [inbound 1 (runWithRequestContext ctx_a reentering_handler);
         inbound 2 (runWithRequestContext ctx_b
                      (runWithRequestContext ctx_a awaiting_handler))] [1; 0; 0] /\
  trace (serve [inbound 1 (runWithRequestContext ctx_a reentering_handler);
                inbound 2 (runWithRequestContext ctx_b
                             (runWithRequestContext ctx_a awaiting_handler))] [1; 0; 0])
    = [mkObservation 2 (Some ctx_a); mkObservation 1 (Some ctx_a);
       mkObservation 1 (Some ctx_a); mkObservation 2 (Some ctx_a)] /\
  Forall (fun o => by_chain o = 1 -> seen o <> Some ctx_b)
         (trace (serve [inbound 1 (runWithRequestContext ctx_a reentering_handler);
                        inbound 2 (runWithRequestContext ctx_b
                                     (runWithRequestContext ctx_a awaiting_handler))]
                       [1; 0; 0])).
Proof.
  assert (Hab : ctx_a <> ctx_b) by discriminate.
  assert (Hnot : ~ (1, ctx_b) ∈ scopes_opened
            [inbound 1 (runWithRequestContext ctx_a reentering_handler);
             inbound 2 (runWithRequestContext ctx_b
                          (runWithRequestContext ctx_a awaiting_handler))] [1; 0; 0]).
  { intros H. vm_compute in H.
    repeat (apply elem_of_cons in H as [H | H]; [discriminate H|]).
    apply elem_of_nil in H. exact H. }
  split; [exact Hab|]. split; [reflexivity|]. split; [exact Hnot|].
  split; [reflexivity|].
  apply (proj1 (request_contexts_isolated _ _ ctx_a ctx_b reentering_handler
                  (runWithRequestContext ctx_a awaiting_handler) 1 2 [1; 0; 0]
                  Hab ltac:(lia))).
  exact Hnot.
Defined.

(** C10, the counterexample: the handler of the first request, started
    inside its own scope on [ctx_a], opens a scope on [ctx_b], the context
    of the second request, and is answered [ctx_b]. *)
Lemma nested_scope_observes_other_context :
  ctx_a <> ctx_b /\
  trace (serve [inbound 1 (runWithRequestContext ctx_a nested_handler);
                inbound 2 (runWithRequestContext ctx_b getRequestContext)] [0; 0])
    = [mkObservation 1 (Some ctx_b); mkObservation 2 (Some ctx_b)] /\
  ~ Forall (fun o => by_chain o = 1 -> seen o <> Some ctx_b)
       (trace (serve [inbound 1 (runWithRequestContext ctx_a nested_handler);
                      inbound 2 (runWithRequestContext ctx_b getRequestContext)]
                     [0; 0])).
Proof.
  split; [discriminate|]. split; [reflexivity|].
  intros H. apply Forall_inv in H. apply H; reflexivity.
Qed.

End RequestContext.

(** * Properties of the Request Body Selector *)

Section BodySelection.

Import RequestBodySelector.

Lemma is_json_true (ct : ContentType) :
  is_json ct = true <-> mediaType ct = "application/json".
Proof. apply String.eqb_eq. Qed.

(** C6: selecting a body content type prefers JSON and is a function of the
    declared list.  From application/json and application/xml, in either
    order, application/json is selected; in general application/json is
    selected whenever it is declared, whatever the order of declaration,
    and the first declared media type otherwise. *)
Theorem selectBody_prefers_json :
  (forall (sj sx : SchemaFragment) (ej ex : list (string * string)),
     selectBody (mkRequestBody [mkContentType "application/json" sj ej;
                                mkContentType "application/xml" sx ex])
       = Some ("application/json", sj) /\
     selectBody (mkRequestBody [mkContentType "application/xml" sx ex;
                                mkContentType "application/json" sj ej])
       = Some ("application/json", sj)) /\
  (forall rb : RequestBodySpec,
     (exists ct, ct ∈ contentTypes rb /\ mediaType ct = "application/json") ->
     fst <$> selectBody rb = Some "application/json") /\
  (forall rb rb' : RequestBodySpec,
     contentTypes rb ≡ₚ contentTypes rb' ->
     (exists ct, ct ∈ contentTypes rb /\ mediaType ct = "application/json") ->
     fst <$> selectBody rb = fst <$> selectBody rb') /\
  (forall rb : RequestBodySpec,
     (forall ct, ct ∈ contentTypes rb -> mediaType ct <> "application/json") ->
     selectBody rb = (fun ct => (mediaType ct, schema ct)) <$> head (contentTypes rb)).
Proof.
  assert (Hjson : forall rb : RequestBodySpec,
     (exists ct, ct ∈ contentTypes rb /\ mediaType ct = "application/json") ->
     fst <$> selectBody rb = Some "application/json").
  { intros rb (ct & Hin & Hct). unfold selectBody.
    destruct (find is_json (contentTypes rb)) as [ct'|] eqn:Hfind.
    - apply find_some in Hfind as [_ Hjs]. apply is_json_true in Hjs.
      simpl. rewrite Hjs. reflexivity.
    - exfalso. apply list_elem_of_In in Hin.
      pose proof (find_none _ _ Hfind ct Hin) as Hno.
      apply is_json_true in Hct. congruence. }
  split; [|split; [|split]].
  - intros sj sx ej ex. split; reflexivity.
  - exact Hjson.
  - intros rb rb' Hperm (ct & Hin & Hct).
    rewrite (Hjson rb) by eauto.
    rewrite (Hjson rb'); [reflexivity|].
    exists ct. split; [|exact Hct]. rewrite <- Hperm. exact Hin.
  - intros rb Hnone. unfold selectBody.
    destruct (find is_json (contentTypes rb)) as [ct'|] eqn:Hfind.
    + apply find_some in Hfind as [Hin Hjs]. apply is_json_true in Hjs.
      apply list_elem_of_In in Hin. exfalso. exact (Hnone ct' Hin Hjs).
    + destruct (contentTypes rb); reflexivity.
Qed.

Lemma selectBody_prefers_json_witness :
  let xml := mkContentType "application/xml" (Fragment (Some "object") None None None [] None) [] in
  let json := mkContentType "application/json" (Fragment (Some "object") None None None [] None) [] in
  let text := mkContentType "text/plain" (Fragment (Some "string") None None None [] None) [] in
  (exists ct, ct ∈ contentTypes (mkRequestBody [xml; json]) /\
              mediaType ct = "application/json") /\
  fst <$> selectBody (mkRequestBody [xml; json]) = Some "application/json" /\
  (forall ct, ct ∈ contentTypes (mkRequestBody [xml; text]) ->
              mediaType ct <> "application/json") /\
  selectBody (mkRequestBody [xml; text])
    = Some ("application/xml", Fragment (Some "object") None None None [] None).
Proof.
  intros xml json text.
  assert (Hhas : exists ct, ct ∈ contentTypes (mkRequestBody [xml; json]) /\
                            mediaType ct = "application/json").
  { exists json. split; [|reflexivity]. simpl. apply list_elem_of_In. simpl. auto. }
  assert (Hnone : forall ct, ct ∈ contentTypes (mkRequestBody [xml; text]) ->
                             mediaType ct <> "application/json").
  { intros ct Hin. simpl in Hin. apply list_elem_of_In in Hin.
    destruct Hin as [<- | [<- | []]]; discriminate. }
  split; [exact Hhas|]. split.
  - exact (proj1 (proj2 selectBody_prefers_json) (mkRequestBody [xml; json]) Hhas).
  - split; [exact Hnone|].
    exact (proj2 (proj2 (proj2 selectBody_prefers_json)) (mkRequestBody [xml; text]) Hnone).
Defined.

End BodySelection.

(** * Further properties of [RedmineAuthProvider] *)

Section RedmineHistories.

Import RedmineAuthProvider.

(** The provider a call leaves. *)
Lemma perform_provider (c : Call) (this : t) (h : Heap) :
  (perform c this h).1 =
    match c with
    | SetApiKey k => mk (Some k) (switchUser this)
    | SetSwitchUser u => mk (apiKey this) (Some u)
    | ClearAuth => initial
    | GetAuthHeaders | HandleAuthError _ | GetAuthStatus => this
    end.
Proof.
  pose proof (redmine_queries_frame this h) as (Hh & He & Hs).
  unfold receiver in *.
  destruct c; try reflexivity; unfold perform, after.
  - destruct (getAuthHeaders this h) as [[r this'] h']. exact Hh.
  - specialize (He error).
    destruct (handleAuthError error this h) as [[r this'] h']. exact He.
Qed.

Lemma history_app (cs1 cs2 : list Call) (this : t) (h : Heap) :
  history (cs1 ++ cs2) this h =
    history cs2 (history cs1 this h).1 (history cs1 this h).2.
Proof.
  revert this h. induction cs1 as [|c cs1 IH]; intros this h; simpl.
  - reflexivity.
  - destruct (perform c this h) as [this' h']. apply IH.
Qed.

(** The provider a history leaves does not depend on the heap. *)
Lemma history_provider_heap (cs : list Call) (this : t) (h h' : Heap) :
  (history cs this h).1 = (history cs this h').1.
Proof.
  revert this h h'. induction cs as [|c cs IH]; intros this h h'; simpl.
  - reflexivity.
  - pose proof (perform_provider c this h) as H1.
    pose proof (perform_provider c this h') as H2.
    destruct (perform c this h) as [this1 h1], (perform c this h') as [this2 h2].
    simpl in *. rewrite H1, H2. apply IH.
Qed.

(** X1: [clearAuth] makes the provider forget what came before it: after
    any calls, a [clearAuth] and further calls [cs], the provider is the one
    a newly constructed provider reaches by [cs]. *)
Theorem clearAuth_forgets (before cs : list Call) (this : t) (h h' : Heap) :
  (history (before ++ ClearAuth :: cs) this h).1
    = (history cs (constructor None None h').1 (constructor None None h').2).1.
Proof.
  rewrite history_app. simpl. apply history_provider_heap.
Qed.

(** X2: the queries are transparent in a history: leaving out every
    [getAuthHeaders], [handleAuthError] and [getAuthStatus] call gives the
    same provider. *)
Theorem queries_erasable (cs : list Call) (this : t) (h h' : Heap) :
  (history cs this h).1 = (history (List.filter is_setter cs) this h').1.
Proof.
  revert this h h'. induction cs as [|c cs IH]; intros this h h'; simpl.
  - reflexivity.
  - pose proof (perform_provider c this h) as H1.
    destruct (perform c this h) as [this1 h1]. simpl in H1.
    destruct (is_setter c) eqn:Hc; simpl.
    + pose proof (perform_provider c this h') as H2.
      destruct (perform c this h') as [this2 h2]. simpl in H2.
      rewrite H1, H2. apply IH.
    + rewrite H1. destruct c; try discriminate Hc; apply IH.
Qed.

(** What a call does to the heap: nothing, or one new object. *)
Lemma perform_heap (c : Call) (this : t) (h : Heap) :
  (perform c this h).2 = h \/
  exists o, (perform c this h).2 = <[fresh (dom h) := o]> h.
Proof.
  destruct c; try (left; reflexivity); unfold perform, after.
  - destruct (truthy (apiKey this)) eqn:Hk.
    + apply truthy_nonempty in Hk as (k & Hk & Hne).
      rewrite (redmine_getAuthHeaders_truthy k) by assumption. right. eauto.
    + rewrite redmine_getAuthHeaders_falsy by assumption. left. reflexivity.
  - rewrite redmine_handleAuthError_cases. left. reflexivity.
Qed.

(** X3: no call on a [RedmineAuthProvider] changes or removes an object
    that is already in the heap; in particular the header objects returned
    by earlier [getAuthHeaders] calls are left as they are by every later
    call. *)
Theorem history_keeps_objects (cs : list Call) (this : t) (h : Heap) :
  h ⊆ (history cs this h).2 /\
  forall (l : loc) (o : HeaderRecord),
    h !! l = Some o -> (history cs this h).2 !! l = Some o.
Proof.
  assert (Hsub : h ⊆ (history cs this h).2).
  { revert this h. induction cs as [|c cs IH]; intros this h; simpl.
    - reflexivity.
    - pose proof (perform_heap c this h) as Hp.
      destruct (perform c this h) as [this' h']. simpl in Hp.
      etransitivity; [|apply IH].
      destruct Hp as [-> | [o ->]]; [reflexivity|].
      apply insert_subseteq, fresh_unused. }
  split; [exact Hsub|].
  intros l o Hl. exact (lookup_weaken _ _ _ _ Hl Hsub).
Qed.

Lemma history_keeps_objects_witness :
  (<[1%positive := {[ "a" := "b" ]}]> ∅ : Heap) !! 1%positive = Some {[ "a" := "b" ]} /\
  (history [SetApiKey "k"; GetAuthHeaders; SetSwitchUser "bot"; GetAuthHeaders]
     initial (<[1%positive := {[ "a" := "b" ]}]> ∅)).2 !! 1%positive
    = Some {[ "a" := "b" ]}.
Proof.
  assert (Hl : (<[1%positive := {[ "a" := "b" ]}]> ∅ : Heap) !! 1%positive
               = Some {[ "a" := "b" ]}) by (vm_compute; reflexivity).
  split; [exact Hl|].
  exact (proj2 (history_keeps_objects
                  [SetApiKey "k"; GetAuthHeaders; SetSwitchUser "bot"; GetAuthHeaders]
                  initial (<[1%positive := {[ "a" := "b" ]}]> ∅)) _ _ Hl).
Defined.

(** X4: every [getAuthHeaders] call returns an object of its own.  With a
    non-empty key, a first call returns [l1]; whatever the caller then
    writes into that object, a second call returns another reference
    holding the headers of the provider, not the caller's change. *)
Theorem redmine_getAuthHeaders_fresh_each_time
    (k : string) (this : t) (h : Heap) (key value : string) :
  apiKey this = Some k -> k <> "" ->
  exists (l1 l2 : loc) (o : HeaderRecord),
    completion (getAuthHeaders this h) = Returned l1 /\
    heap (getAuthHeaders this h) !! l1 = Some o /\
    let written := heap (setProperty l1 key value this (heap (getAuthHeaders this h))) in
    written !! l1 = Some (<[key := value]> o) /\
    completion (getAuthHeaders this written) = Returned l2 /\
    l2 <> l1 /\
    heap (getAuthHeaders this written) !! l2 = Some o /\
    heap (getAuthHeaders this written) !! l1 = Some (<[key := value]> o).
Proof.
  intros Hk Hne.
  exists (fresh (dom h)).
  set (o := expectedHeaders k (effectiveUser this)).
  set (l1 := fresh (dom h)).
  set (written := alter (insert key value) l1 (<[l1 := o]> h) : Heap).
  exists (fresh (dom written)), o.
  assert (Hw : written !! l1 = Some (<[key := value]> o)).
  { unfold written. rewrite alter_insert_eq. apply lookup_insert_eq. }
  assert (Hl : fresh (dom written) <> l1).
  { intros Heq. pose proof (fresh_unused written) as Hf. rewrite Heq in Hf. congruence. }
  rewrite (redmine_getAuthHeaders_truthy k this h Hk Hne).
  unfold completion, heap, setProperty. cbn [fst snd].
  fold l1. fold o. fold written.
  rewrite (redmine_getAuthHeaders_truthy k this written Hk Hne).
  cbn [fst snd]. fold o.
  split; [reflexivity|]. split; [apply lookup_insert_eq|].
  split; [exact Hw|]. split; [reflexivity|]. split; [exact Hl|].
  split; [apply lookup_insert_eq|].
  rewrite lookup_insert_ne by exact Hl. exact Hw.
Qed.

Lemma redmine_getAuthHeaders_fresh_each_time_witness :
  apiKey (mk (Some "test-key") None) = Some "test-key" /\ "test-key" <> "" /\
  exists (l1 l2 : loc) (o : HeaderRecord),
    completion (getAuthHeaders (mk (Some "test-key") None) ∅) = Returned l1 /\
    heap (getAuthHeaders (mk (Some "test-key") None) ∅) !! l1 = Some o /\
    let written := heap (setProperty l1 "Accept" "text/xml" (mk (Some "test-key") None)
                           (heap (getAuthHeaders (mk (Some "test-key") None) ∅))) in
    written !! l1 = Some (<["Accept" := "text/xml"]> o) /\
    completion (getAuthHeaders (mk (Some "test-key") None) written) = Returned l2 /\
    l2 <> l1 /\
    heap (getAuthHeaders (mk (Some "test-key") None) written) !! l2 = Some o /\
    heap (getAuthHeaders (mk (Some "test-key") None) written) !! l1
      = Some (<["Accept" := "text/xml"]> o).
Proof.
  split; [reflexivity|]. split; [discriminate|].
  apply (redmine_getAuthHeaders_fresh_each_time "test-key"
           (mk (Some "test-key") None) ∅ "Accept" "text/xml");
    [reflexivity | discriminate].
Defined.

End RedmineHistories.


Section RedmineObservations.

Import RedmineAuthProvider.

(** X5: [getAuthStatus().hasApiKey] tells whether [getAuthHeaders] will
    succeed: it is [true] exactly when [getAuthHeaders] returns, and [false]
    exactly when it throws. *)
Theorem hasApiKey_predicts_getAuthHeaders (this : t) (h h' : Heap) :
  exists st,
    completion (getAuthStatus this h) = Returned st /\
    (hasApiKey st = true <-> exists l, completion (getAuthHeaders this h') = Returned l) /\
    (hasApiKey st = false <-> throws (completion (getAuthHeaders this h'))).
Proof.
  rewrite getAuthStatus_value. eexists. split; [reflexivity|]. simpl.
  destruct (truthy (apiKey this)) eqn:Hk.
  - apply truthy_nonempty in Hk as (k & Hk & Hne).
    rewrite (redmine_getAuthHeaders_truthy k) by assumption.
    unfold completion. simpl. split; split; try discriminate; eauto.
    intros [e He]. discriminate He.
  - rewrite redmine_getAuthHeaders_falsy by assumption.
    unfold completion, throws. simpl. split; split; try discriminate; eauto.
    intros [l Hl]. discriminate Hl.
Qed.

Lemma hasApiKey_predicts_getAuthHeaders_witness :
  exists st,
    completion (getAuthStatus (mk (Some "") (Some "bot")) ∅) = Returned st /\
    hasApiKey st = false /\
    throws (completion (getAuthHeaders (mk (Some "") (Some "bot")) ∅)).
Proof.
  destruct (hasApiKey_predicts_getAuthHeaders (mk (Some "") (Some "bot")) ∅ ∅)
    as (st & Hst & _ & Hthrows).
  exists st. split; [exact Hst|].
  assert (Hno : hasApiKey st = false).
  { unfold completion in Hst. simpl in Hst. injection Hst as <-. reflexivity. }
  split; [exact Hno | apply Hthrows, Hno].
Defined.

Lemma length_append (s1 s2 : string) :
  String.length (s1 +:+ s2) = String.length s1 + String.length s2.
Proof.
  induction s1 as [|c s1 IH]; simpl; [reflexivity|]. rewrite IH. reflexivity.
Qed.

Lemma length_first_chars (n : nat) (s : string) :
  String.length (first_chars n s) = Nat.min n (String.length s).
Proof.
  revert s. induction n as [|n IH]; intros [|c s]; try reflexivity.
  change (first_chars (S n) (String c s)) with (String c (first_chars n s)).
  simpl. rewrite IH. reflexivity.
Qed.

Lemma first_chars_all (n : nat) (s : string) :
  String.length s <= n -> first_chars n s = s.
Proof.
  revert s. induction n as [|n IH]; intros [|c s] Hlen; simpl in Hlen;
    try reflexivity; try lia.
  change (first_chars (S n) (String c s)) with (String c (first_chars n s)).
  rewrite IH by lia. reflexivity.
Qed.

(** X6: the preview of a non-empty key is never longer than 11 characters,
    and a key of at most 8 characters is shown in full: the preview is then
    the whole key followed by "...". *)
Theorem apiKeyPreview_length (k : string) (this : t) (h : Heap) :
  apiKey this = Some k -> k <> "" ->
  exists st preview,
    completion (getAuthStatus this h) = Returned st /\
    apiKeyPreview st = Some preview /\
    String.length preview = Nat.min 8 (String.length k) + 3 /\
    String.length preview <= 11 /\
    (String.length k <= 8 -> preview = k +:+ "...").
Proof.
  intros Hk Hne. rewrite getAuthStatus_value. rewrite Hk.
  apply truthy_Some in Hne. rewrite Hne.
  eexists. eexists. split; [reflexivity|]. split; [reflexivity|].
  rewrite length_append, length_first_chars. simpl String.length.
  split; [reflexivity|]. split; [lia|].
  intros Hlen. rewrite first_chars_all by exact Hlen. reflexivity.
Qed.

Lemma apiKeyPreview_length_witness :
  apiKey (mk (Some "test-key") None) = Some "test-key" /\
  "test-key" <> "" /\ String.length "test-key" <= 8 /\
  exists st,
    completion (getAuthStatus (mk (Some "test-key") None) ∅) = Returned st /\
    apiKeyPreview st = Some "test-key...".
Proof.
  split; [reflexivity|]. split; [discriminate|]. split; [simpl; lia|].
  destruct (apiKeyPreview_length "test-key" (mk (Some "test-key") None) ∅)
    as (st & preview & Hst & Hprev & _ & _ & Hfull); [reflexivity | discriminate |].
  exists st. split; [exact Hst|]. rewrite Hprev, Hfull; [reflexivity | simpl; lia].
Defined.

Lemma truthy_Some_false (s : string) : truthy (Some s) = false <-> s = "".
Proof.
  simpl. rewrite negb_false_iff. apply String.eqb_eq.
Qed.

(** [getAuthHeaders] depends on the provider only through the key, when it
    is truthy, and the switch user, when it is truthy. *)
Lemma redmine_getAuthHeaders_depends (this1 this2 : t) (h : Heap) :
  truthy (apiKey this1) = truthy (apiKey this2) ->
  (truthy (apiKey this1) = true -> apiKey this1 = apiKey this2) ->
  effectiveUser this1 = effectiveUser this2 ->
  completion (getAuthHeaders this1 h) = completion (getAuthHeaders this2 h) /\
  heap (getAuthHeaders this1 h) = heap (getAuthHeaders this2 h).
Proof.
  intros Ht Hkey Hu. destruct (truthy (apiKey this1)) eqn:H1.
  - apply truthy_nonempty in H1 as (k & H1 & Hne).
    assert (H2 : apiKey this2 = Some k) by (rewrite <- Hkey; auto).
    rewrite (redmine_getAuthHeaders_truthy k this1) by assumption.
    rewrite (redmine_getAuthHeaders_truthy k this2) by assumption.
    rewrite Hu. split; reflexivity.
  - rewrite !redmine_getAuthHeaders_falsy by (assumption || congruence).
    split; reflexivity.
Qed.

(** X7: [new RedmineAuthProvider(k, u)] and [new RedmineAuthProvider()]
    followed by [setApiKey(k)] and [setSwitchUser(u)] give the same
    [getAuthHeaders] and [handleAuthError] results and the same [hasApiKey]
    and [apiKeyPreview], for all strings [k] and [u], the empty one
    included.  The stored fields differ exactly where an argument is the
    empty string: the constructor leaves the field [null] where the setter
    stores the empty string, which [getAuthStatus().switchUser] shows for
    [u]; so the two providers are equal exactly when [k] and [u] are both
    non-empty. *)
Theorem constructor_agrees_with_setters (k u : string) (h h' : Heap) :
  let built := (constructor (Some k) (Some u) h).1 in
  let set := (history [SetApiKey k; SetSwitchUser u] initial h).1 in
  completion (getAuthHeaders built h') = completion (getAuthHeaders set h') /\
  heap (getAuthHeaders built h') = heap (getAuthHeaders set h') /\
  (forall error, completion (handleAuthError error built h')
                 = completion (handleAuthError error set h')) /\
  (exists st1 st2,
     completion (getAuthStatus built h') = Returned st1 /\
     completion (getAuthStatus set h') = Returned st2 /\
     hasApiKey st1 = hasApiKey st2 /\ apiKeyPreview st1 = apiKeyPreview st2 /\
     status_switchUser st1 = switchUser built /\
     status_switchUser st2 = switchUser set) /\
  apiKey set = Some k /\ switchUser set = Some u /\
  (k <> "" -> apiKey built = Some k) /\ (k = "" -> apiKey built = None) /\
  (u <> "" -> switchUser built = Some u) /\ (u = "" -> switchUser built = None) /\
  (built = set <-> k <> "" /\ u <> "").
Proof.
  intros built set.
  assert (Hset : set = mk (Some k) (Some u)) by reflexivity.
  assert (Hbuilt : built = mk (if truthy (Some k) then Some k else None)
                              (if truthy (Some u) then Some u else None)).
  { unfold built, constructor, constructor_body, whenTruthy, bind.
    destruct (truthy (Some k)), (truthy (Some u)); reflexivity. }
  rewrite Hset, Hbuilt. clear Hset Hbuilt built set.
  assert (Hkey : forall s : string,
            truthy (if truthy (Some s) then Some s else None) = truthy (Some s)).
  { intros s. destruct (truthy (Some s)) eqn:Hs; [exact Hs | reflexivity]. }
  assert (Hheaders :
    completion (getAuthHeaders (mk (if truthy (Some k) then Some k else None)
                                   (if truthy (Some u) then Some u else None)) h')
      = completion (getAuthHeaders (mk (Some k) (Some u)) h') /\
    heap (getAuthHeaders (mk (if truthy (Some k) then Some k else None)
                             (if truthy (Some u) then Some u else None)) h')
      = heap (getAuthHeaders (mk (Some k) (Some u)) h')).
  { apply redmine_getAuthHeaders_depends; cbn [apiKey switchUser].
    - apply Hkey.
    - destruct (truthy (Some k)); [reflexivity | discriminate].
    - unfold effectiveUser. cbn [switchUser]. rewrite Hkey.
      destruct (truthy (Some u)); reflexivity. }
  destruct Hheaders as [Hc Hh].
  split; [exact Hc|]. split; [exact Hh|].
  split; [intros error; rewrite !redmine_handleAuthError_cases; reflexivity|].
  split.
  { rewrite !getAuthStatus_value. eexists. eexists.
    split; [reflexivity|]. split; [reflexivity|].
    cbn [hasApiKey apiKeyPreview status_switchUser apiKey switchUser].
    rewrite Hkey. split; [reflexivity|].
    split; [destruct (truthy (Some k)); reflexivity|].
    split; reflexivity. }
  cbn [apiKey switchUser].
  split; [reflexivity|]. split; [reflexivity|].
  split; [intros Hk; apply truthy_Some in Hk; rewrite Hk; reflexivity|].
  split; [intros Hk; apply truthy_Some_false in Hk; rewrite Hk; reflexivity|].
  split; [intros Hu; apply truthy_Some in Hu; rewrite Hu; reflexivity|].
  split; [intros Hu; apply truthy_Some_false in Hu; rewrite Hu; reflexivity|].
  split.
  - intros Heq. split.
    + apply truthy_Some. destruct (truthy (Some k)); [reflexivity | discriminate Heq].
    + apply truthy_Some. destruct (truthy (Some u)); [reflexivity|].
      destruct (truthy (Some k)); discriminate Heq.
  - intros [Hk Hu]. apply truthy_Some in Hk. apply truthy_Some in Hu.
    rewrite Hk, Hu. reflexivity.
Qed.

Lemma constructor_agrees_with_setters_witness :
  apiKey (constructor (Some "") (Some "") ∅).1 = None /\
  apiKey (history [SetApiKey ""; SetSwitchUser ""] initial ∅).1 = Some "" /\
  switchUser (constructor (Some "test-key") (Some "") ∅).1 = None /\
  switchUser (history [SetApiKey "test-key"; SetSwitchUser ""] initial ∅).1 = Some "" /\
  heap (getAuthHeaders (constructor (Some "test-key") (Some "") ∅).1 ∅)
    = heap (getAuthHeaders
              (history [SetApiKey "test-key"; SetSwitchUser ""] initial ∅).1 ∅) /\
  (constructor (Some "test-key") (Some "bot") ∅).1
    = (history [SetApiKey "test-key"; SetSwitchUser "bot"] initial ∅).1.
Proof.
  pose proof (constructor_agrees_with_setters "" "" ∅ ∅)
    as (_ & _ & _ & _ & Hset0 & _ & _ & Hbuilt0 & _ & _ & _).
  pose proof (constructor_agrees_with_setters "test-key" "" ∅ ∅)
    as (_ & Hheap & _ & _ & _ & Hset1 & _ & _ & _ & Hbuilt1 & _).
  pose proof (constructor_agrees_with_setters "test-key" "bot" ∅ ∅)
    as (_ & _ & _ & _ & _ & _ & _ & _ & _ & _ & Heq).
  split; [exact (Hbuilt0 eq_refl)|]. split; [exact Hset0|].
  split; [exact (Hbuilt1 eq_refl)|]. split; [exact Hset1|].
  split; [exact Hheap|].
  assert (Hne : "test-key" <> "" /\ "bot" <> "") by (split; discriminate).
  exact (proj2 Heq Hne).
Defined.

(** X8: the only errors a [RedmineAuthProvider] throws are the three fixed
    messages: [getAuthHeaders] throws the "API key not set" message and only
    when the key is [null] or empty; [handleAuthError] throws the 401 or the
    403 message and only for such a status; the setters, [clearAuth] and
    [getAuthStatus] never throw.  No thrown message depends on the key or on
    the switch user. *)
Theorem redmine_thrown_errors (c : Call) (this : t) (h : Heap) (e : Error) :
  thrownBy c this h = Some e ->
  (c = GetAuthHeaders /\ truthy (apiKey this) = false /\ e = mkError msg_not_set) \/
  (exists error, c = HandleAuthError error /\
     ((response_status error = Some 401%Z /\ e = mkError msg_401) \/
      (response_status error = Some 403%Z /\ e = mkError msg_403))).
Proof.
  destruct c; unfold thrownBy, thrown, completion; try discriminate.
  - destruct (truthy (apiKey this)) eqn:Hk.
    + apply truthy_nonempty in Hk as (k & Hk & Hne).
      rewrite (redmine_getAuthHeaders_truthy k) by assumption. discriminate.
    + rewrite redmine_getAuthHeaders_falsy by assumption. simpl.
      intros [= <-]. left. auto.
  - rewrite redmine_handleAuthError_cases. simpl.
    destruct (strict_eq (response_status error) 401) eqn:H1.
    + intros [= <-]. right. exists error. split; [reflexivity|]. left.
      apply strict_eq_true in H1. auto.
    + destruct (strict_eq (response_status error) 403) eqn:H3; [|discriminate].
      intros [= <-]. right. exists error. split; [reflexivity|]. right.
      apply strict_eq_true in H3. auto.
Qed.

Lemma redmine_thrown_errors_witness :
  thrownBy (HandleAuthError (mkAxiosError (Some (mkResponse 403))))
           (mk (Some "secret") None) ∅ = Some (mkError msg_403) /\
  ((HandleAuthError (mkAxiosError (Some (mkResponse 403))) = GetAuthHeaders /\
    truthy (apiKey (mk (Some "secret") None)) = false /\
    mkError msg_403 = mkError msg_not_set) \/
   (exists error, HandleAuthError (mkAxiosError (Some (mkResponse 403)))
                    = HandleAuthError error /\
      ((response_status error = Some 401%Z /\ mkError msg_403 = mkError msg_401) \/
       (response_status error = Some 403%Z /\ mkError msg_403 = mkError msg_403)))).
Proof.
  split; [reflexivity|].
  apply (redmine_thrown_errors
           (HandleAuthError (mkAxiosError (Some (mkResponse 403))))
           (mk (Some "secret") None) ∅ (mkError msg_403)).
  reflexivity.
Defined.

End RedmineObservations.

(** * Further properties of [StaticAuthProvider] *)

Section StaticSharing.

(** X9: a [StaticAuthProvider] keeps the object it was constructed with by
    reference and hands out copies.  When the caller later writes to its
    object, the next [getAuthHeaders] returns the changed headers, while a
    copy returned before the write still holds the old ones. *)
Theorem static_provider_shares_headers
    (l : loc) (stored : HeaderRecord) (h : Heap) (key value : string) :
  h !! l = Some stored ->
  let this := (StaticAuthProvider.constructor (Some l) h).1 in
  let h0 := (StaticAuthProvider.constructor (Some l) h).2 in
  StaticAuthProvider.headers this = l /\ h0 = h /\
  exists (l1 l2 : loc) (h1 h3 : Heap),
    StaticAuthProvider.getAuthHeaders this h0 = (Returned l1, this, h1) /\
    h1 !! l1 = Some stored /\
    let h2 := heap (setProperty l key value this h1) in
    h2 !! l = Some (<[key := value]> stored) /\
    StaticAuthProvider.getAuthHeaders this h2 = (Returned l2, this, h3) /\
    h3 !! l2 = Some (<[key := value]> stored) /\
    h3 !! l1 = Some stored /\
    l1 <> l /\ l2 <> l /\ l2 <> l1.
Proof.
  intros Hl. simpl. split; [reflexivity|]. split; [reflexivity|].
  set (this := StaticAuthProvider.mk l).
  set (l1 := fresh (dom h)).
  assert (Hl1 : l1 <> l).
  { intros Heq. pose proof (fresh_unused h) as Hf. fold l1 in Hf.
    rewrite Heq in Hf. congruence. }
  set (h1 := <[l1 := stored]> h : Heap).
  set (h2 := alter (insert key value) l h1 : Heap).
  assert (H2l : h2 !! l = Some (<[key := value]> stored)).
  { unfold h2, h1. rewrite lookup_alter_eq. rewrite lookup_insert_ne by exact Hl1.
    rewrite Hl. reflexivity. }
  assert (H2l1 : h2 !! l1 = Some stored).
  { unfold h2, h1. rewrite lookup_alter_ne by congruence. apply lookup_insert_eq. }
  set (l2 := fresh (dom h2)).
  assert (Hl2 : l2 <> l).
  { intros Heq. pose proof (fresh_unused h2) as Hf. fold l2 in Hf.
    rewrite Heq in Hf. congruence. }
  assert (Hl21 : l2 <> l1).
  { intros Heq. pose proof (fresh_unused h2) as Hf. fold l2 in Hf.
    rewrite Heq in Hf. congruence. }
  exists l1, l2, h1, (<[l2 := <[key := value]> stored]> h2).
  split.
  { rewrite static_getAuthHeaders_value. simpl StaticAuthProvider.headers.
    rewrite Hl. reflexivity. }
  split; [apply lookup_insert_eq|].
  unfold heap, setProperty. cbn [snd]. fold h2.
  split; [exact H2l|]. split.
  { rewrite static_getAuthHeaders_value. simpl StaticAuthProvider.headers.
    rewrite H2l. reflexivity. }
  split; [apply lookup_insert_eq|].
  split; [rewrite lookup_insert_ne by exact Hl21; exact H2l1|].
  auto.
Qed.

Lemma static_provider_shares_headers_witness :
  (<[1%positive := {[ "Authorization" := "Bearer old" ]}]> ∅ : Heap) !! 1%positive
    = Some {[ "Authorization" := "Bearer old" ]} /\
  exists (l1 l2 : loc) (h1 h3 : Heap),
    StaticAuthProvider.getAuthHeaders (StaticAuthProvider.mk 1%positive)
      (<[1%positive := {[ "Authorization" := "Bearer old" ]}]> ∅)
      = (Returned l1, StaticAuthProvider.mk 1%positive, h1) /\
    StaticAuthProvider.getAuthHeaders (StaticAuthProvider.mk 1%positive)
      (heap (setProperty 1%positive "Authorization" "Bearer new"
               (StaticAuthProvider.mk 1%positive) h1))
      = (Returned l2, StaticAuthProvider.mk 1%positive, h3) /\
    h3 !! l2 = Some (<["Authorization" := "Bearer new"]> {[ "Authorization" := "Bearer old" ]}) /\
    h3 !! l1 = Some {[ "Authorization" := "Bearer old" ]}.
Proof.
  assert (Hl : (<[1%positive := {[ "Authorization" := "Bearer old" ]}]> ∅ : Heap)
                 !! 1%positive = Some {[ "Authorization" := "Bearer old" ]})
    by (vm_compute; reflexivity).
  split; [exact Hl|].
  destruct (static_provider_shares_headers 1%positive
              {[ "Authorization" := "Bearer old" ]}
              (<[1%positive := {[ "Authorization" := "Bearer old" ]}]> ∅)
              "Authorization" "Bearer new" Hl)
    as (_ & _ & l1 & l2 & h1 & h3 & Hc1 & _ & _ & Hc2 & Hnew & Hold & _).
  exists l1, l2, h1, h3. auto.
Defined.

End StaticSharing.

(** * Further properties of the request context *)

Section RequestChains.

Import AsyncLocalStorage.

(** X10: any number of inbound requests, each handled inside
    [runWithRequestContext] on its own context by a handler that opens no
    further scope: under every interleaving of their jobs, every
    [getRequestContext()] is answered the context of the request whose call
    chain it belongs to. *)
Theorem requests_see_their_own_context (rs : list Request) (sched : list nat) :
  Forall (fun r => scope_free (req_handler r)) rs ->
  Forall (fun o => exists r, rs !! by_chain o = Some r /\ seen o = Some (req_context r))
         (trace (serve (imap handle rs) sched)).
Proof.
  intros Hfree.
  apply (serve_within _
           (fun ch s => exists r, rs !! ch = Some r /\ s = Some (req_context r))).
  apply Forall_lookup. intros i j Hj.
  rewrite list_lookup_imap in Hj.
  destruct (rs !! i) as [r|] eqn:Hr; [|discriminate Hj].
  injection Hj as <-.
  unfold job_within, handle, inbound. simpl.
  split; [|intros b; exact I].
  apply (opens_scoped _ (fun _ => False)).
  - contradiction.
  - exists r. auto.
  - exact (proj1 (Forall_lookup _ _) Hfree i r Hr).
Qed.

Lemma requests_see_their_own_context_witness :
  Forall (fun r => scope_free (req_handler r))
         [mkRequest ctx_a _ awaiting_handler; mkRequest ctx_b _ awaiting_handler;
          mkRequest ctx_a _ getRequestContext] /\
  trace (serve (imap handle
                  [mkRequest ctx_a _ awaiting_handler; mkRequest ctx_b _ awaiting_handler;
                   mkRequest ctx_a _ getRequestContext]) [1; 0; 2; 0; 0])
    = [mkObservation 1 (Some ctx_b); mkObservation 0 (Some ctx_a);
       mkObservation 0 (Some ctx_a); mkObservation 2 (Some ctx_a);
       mkObservation 1 (Some ctx_b)] /\
  Forall (fun o => exists r,
            [mkRequest ctx_a _ awaiting_handler; mkRequest ctx_b _ awaiting_handler;
             mkRequest ctx_a _ getRequestContext] !! by_chain o = Some r /\
            seen o = Some (req_context r))
         (trace (serve (imap handle
                  [mkRequest ctx_a _ awaiting_handler; mkRequest ctx_b _ awaiting_handler;
                   mkRequest ctx_a _ getRequestContext]) [1; 0; 2; 0; 0])).
Proof.
  assert (Hfree : Forall (fun r => scope_free (req_handler r))
            [mkRequest ctx_a _ awaiting_handler; mkRequest ctx_b _ awaiting_handler;
             mkRequest ctx_a _ getRequestContext]).
  { repeat constructor; unfold scope_free; simpl; auto. }
  split; [exact Hfree|]. split; [reflexivity|].
  apply (requests_see_their_own_context _ [1; 0; 2; 0; 0] Hfree).
Defined.

(** X11: the innermost scope wins.  For a handler [f] that opens no further
    scope, every [getRequestContext()] in the call chain of
    [runWithRequestContext(c, () => runWithRequestContext(d, f))] is answered
    [d], also in the jobs that run after both scopes have been left. *)
Theorem innermost_scope_wins A (c d : RequestContextValue) (f : Handler A)
    (ch : nat) (sched : list nat) :
  scope_free f ->
  Forall (fun o => seen o = Some d)
         (trace (serve [inbound ch (runWithRequestContext c (runWithRequestContext d f))]
                       sched)).
Proof.
  intros Hf. apply (serve_within _ (fun _ s => s = Some d)).
  constructor; [|constructor].
  unfold job_within, inbound. simpl.
  split; [|intros b; exact I]. split; [|intros b; exact I].
  apply scope_free_scoped, Hf.
Qed.

Lemma innermost_scope_wins_witness :
  scope_free awaiting_handler /\
  trace (serve [inbound 0 (runWithRequestContext ctx_a
                             (runWithRequestContext ctx_b awaiting_handler))] [0; 0])
    = [mkObservation 0 (Some ctx_b); mkObservation 0 (Some ctx_b)] /\
  Forall (fun o => seen o = Some ctx_b)
         (trace (serve [inbound 0 (runWithRequestContext ctx_a
                                     (runWithRequestContext ctx_b awaiting_handler))]
                       [0; 0])).
Proof.
  assert (Hfree : scope_free awaiting_handler) by (unfold scope_free; simpl; auto).
  split; [exact Hfree|]. split; [reflexivity|].
  apply (innermost_scope_wins _ ctx_a ctx_b awaiting_handler 0 [0; 0] Hfree).
Defined.

End RequestChains.

Section LastKey.

Import RedmineAuthProvider.

Lemma history_keeps_apiKey (cs : list Call) (this : t) (h : Heap) :
  Forall (fun c => touchesKey c = false) cs ->
  apiKey (history cs this h).1 = apiKey this.
Proof.
  revert this h. induction cs as [|c cs IH]; intros this h Hcs; simpl.
  - reflexivity.
  - apply Forall_cons in Hcs as [Hc Hcs].
    pose proof (perform_apiKey c this h) as Hk.
    destruct (perform c this h) as [this' h']. simpl in Hk.
    rewrite IH by exact Hcs. rewrite Hk.
    destruct c; try reflexivity; discriminate Hc.
Qed.

(** X12: the key sent is the last one set.  After any calls, a
    [setApiKey(k)] with a non-empty [k], and then any calls other than
    [setApiKey] and [clearAuth], [getAuthHeaders] returns a new object whose
    "X-Redmine-API-Key" is [k]. *)
Theorem last_key_set_is_sent (before later : list Call) (k : string)
    (this : t) (h : Heap) :
  k <> "" ->
  Forall (fun c => touchesKey c = false) later ->
  let p := (history (before ++ SetApiKey k :: later) this h).1 in
  let h' := (history (before ++ SetApiKey k :: later) this h).2 in
  exists (l : loc) (o : HeaderRecord),
    getAuthHeaders p h' = (Returned l, p, <[l := o]> h') /\
    h' !! l = None /\
    o !! "X-Redmine-API-Key" = Some k.
Proof.
  intros Hne Hlater p h'.
  assert (Hk : apiKey p = Some k).
  { unfold p. rewrite history_app. simpl.
    rewrite history_keeps_apiKey by exact Hlater. reflexivity. }
  exists (fresh (dom h')), (expectedHeaders k (effectiveUser p)).
  split; [apply redmine_getAuthHeaders_truthy; assumption|].
  split; [apply fresh_unused|].
  unfold expectedHeaders. destruct (effectiveUser p) as [u|].
  - rewrite lookup_insert_ne by discriminate. apply lookup_insert_eq.
  - apply lookup_insert_eq.
Qed.

Lemma last_key_set_is_sent_witness :
  "second-key" <> "" /\
  Forall (fun c => touchesKey c = false) [GetAuthStatus; SetSwitchUser "bot"; GetAuthHeaders] /\
  exists (l : loc) (o : HeaderRecord),
    completion
      (getAuthHeaders
         (history ([SetApiKey "first-key"; ClearAuth] ++ SetApiKey "second-key"
                     :: [GetAuthStatus; SetSwitchUser "bot"; GetAuthHeaders]) initial ∅).1
         (history ([SetApiKey "first-key"; ClearAuth] ++ SetApiKey "second-key"
                     :: [GetAuthStatus; SetSwitchUser "bot"; GetAuthHeaders]) initial ∅).2)
      = Returned l /\
    o !! "X-Redmine-API-Key" = Some "second-key".
Proof.
  assert (Hne : "second-key" <> "") by discriminate.
  assert (Hlater : Forall (fun c => touchesKey c = false)
                     [GetAuthStatus; SetSwitchUser "bot"; GetAuthHeaders])
    by (repeat constructor).
  split; [exact Hne|]. split; [exact Hlater|].
  destruct (last_key_set_is_sent [SetApiKey "first-key"; ClearAuth]
              [GetAuthStatus; SetSwitchUser "bot"; GetAuthHeaders]
              "second-key" initial ∅ Hne Hlater) as (l & o & Hcall & _ & Ho).
  exists l, o. split; [|exact Ho]. rewrite Hcall. reflexivity.
Defined.

End LastKey.

